(** * The local search engine of the blog theme (src/js/search.js)

    A shallow embedding of the [SearchEngine] class: its pure functions
    ([search], [highlight], [getExcerpt]) and the session state that the
    event handlers ([openSearch], [closeSearch], [handleSearch],
    [loadSearchData], the debounced input handler) read and write.

    Text is modelled as lists of 8-bit characters: the JavaScript strings
    whose code units are all below 256 (ASCII and the Latin-1 supplement).
    On these, changing case maps one character to one character, and an
    index counts characters.  Text with code units beyond this range is
    outside of the model. *)

From Stdlib Require Import Ascii String.
From Stdlib Require Import List ZArith Lia Bool Arith.
From Stdlib Require Import Sorted Permutation.
Import ListNotations.

(* ================================================================= *)
(** * Part I: definitions *)
(* ================================================================= *)

(** ** Strings *)

Definition str := list ascii.

(** A literal of the source, written as a Rocq string. *)
Definition lit (s : string) : str := list_ascii_of_string s.

(** The double quote character, for HTML attribute values. *)
Definition dquote : ascii := ascii_of_nat 34.

(** The upper-case letters: A-Z, and in the Latin-1 supplement the
    letters from 192 to 222 (215 is the multiplication sign). *)
Definition isUpper (c : ascii) : bool :=
  let n := nat_of_ascii c in
  ((65 <=? n) && (n <=? 90))
  || ((192 <=? n) && (n <=? 222) && negb (n =? 215)).

(** The lower-case letters that have an 8-bit upper-case form: a-z, and
    the letters from 224 to 254 (247 is the division sign). *)
Definition isLower (c : ascii) : bool :=
  let n := nat_of_ascii c in
  ((97 <=? n) && (n <=? 122))
  || ((224 <=? n) && (n <=? 254) && negb (n =? 247)).

Definition lowerChar (c : ascii) : ascii :=
  if isUpper c then ascii_of_nat (nat_of_ascii c + 32) else c.

(** The canonical form of a character under the flag [i] of a regular
    expression, which is its upper-case form.  The characters 181, 223
    and 255 stand for themselves: their upper-case forms are not 8-bit
    characters (or not one character), and no other 8-bit character
    shares them. *)
Definition upperChar (c : ascii) : ascii :=
  if isLower c then ascii_of_nat (nat_of_ascii c - 32) else c.

(** [String.prototype.toLowerCase]. *)
Definition toLowerCase (s : str) : str := map lowerChar s.

(** [s.startsWith(p)]: the characters of [p] are the first of [s]. *)
Fixpoint startsWith (s p : str) {struct p} : bool :=
  match p, s with
  | [], _ => true
  | _ :: _, [] => false
  | a :: p', b :: s' => Ascii.eqb a b && startsWith s' p'
  end.

(** [String.prototype.indexOf]: the smallest index at which [p] occurs in
    [s], and -1 when it does not occur. *)
Fixpoint indexOf (s p : str) : Z :=
  if startsWith s p then 0%Z
  else match s with
       | [] => (-1)%Z
       | _ :: s' =>
           let r := indexOf s' p in
           if (r =? -1)%Z then (-1)%Z else (r + 1)%Z
       end.

(** [String.prototype.includes]. *)
Definition includes (s p : str) : bool := negb (indexOf s p =? -1)%Z.

(** [String.prototype.substring(a, b)]: both arguments are clamped to
    [0, length] and swapped when [a > b]. *)
Definition substring (s : str) (a b : Z) : str :=
  let len := Z.of_nat (length s) in
  let a' := Z.min (Z.max a 0) len in
  let b' := Z.min (Z.max b 0) len in
  let lo := Z.min a' b' in
  let hi := Z.max a' b' in
  firstn (Z.to_nat (hi - lo)) (skipn (Z.to_nat lo) s).

(** JavaScript white space and line terminators below 256: TAB, LF, VT,
    FF, CR, SPACE and the no-break space. *)
Definition isWhiteSpace (c : ascii) : bool :=
  let n := nat_of_ascii c in
  ((9 <=? n) && (n <=? 13)) || (n =? 32) || (n =? 160).

Fixpoint trimStart (s : str) : str :=
  match s with
  | [] => []
  | c :: s' => if isWhiteSpace c then trimStart s' else s
  end.

Definition trimEnd (s : str) : str := rev (trimStart (rev s)).

(** [String.prototype.trim]. *)
Definition trim (s : str) : str := trimEnd (trimStart s).

(** ** Documents and scored results *)

Record Document := mkDocument {
  title : str;
  url : str;
  content : str;
  tags : list str;
  categories : list str
}.

Record MatchedIn := mkMatchedIn {
  in_title : bool;
  in_content : bool;
  in_tags : bool;
  in_categories : bool
}.

(** One element of the array [search] returns: [{...post, score,
    matchedIn}].  The five copied fields of the post are kept together
    in [post]. *)
Record Result := mkResult {
  post : Document;
  score : Z;
  matchedIn : MatchedIn
}.

(** ** [Array.prototype.sort]

    ECMAScript (2019 and later) requires [sort] to be stable: elements
    that the comparator does not order keep their relative order.  For a
    comparator that is a consistent ordering the result is then unique;
    it is computed here by stable insertion.  [cmp a b < 0] puts [a]
    before [b], [cmp a b > 0] puts [b] before [a]. *)

Fixpoint sort_insert {A : Type} (cmp : A -> A -> Z) (x : A) (l : list A) : list A :=
  match l with
  | [] => [x]
  | y :: l' =>
      if (cmp x y <=? 0)%Z then x :: y :: l' else y :: sort_insert cmp x l'
  end.

Fixpoint sort {A : Type} (cmp : A -> A -> Z) (l : list A) : list A :=
  match l with
  | [] => []
  | x :: l' => sort_insert cmp x (sort cmp l')
  end.

(** ** [SearchEngine.search] (search.js, lines 239-278) *)

Definition titleMatch (keywordLower : str) (p : Document) : bool :=
  includes (toLowerCase (title p)) keywordLower.

Definition contentMatch (keywordLower : str) (p : Document) : bool :=
  includes (toLowerCase (content p)) keywordLower.

Definition tagMatch (keywordLower : str) (p : Document) : bool :=
  existsb (fun tag => includes (toLowerCase tag) keywordLower) (tags p).

Definition categoryMatch (keywordLower : str) (p : Document) : bool :=
  existsb (fun cat => includes (toLowerCase cat) keywordLower) (categories p).

(** The relevance score, accumulated as the source does. *)
Definition relevance (tm gm cm nm : bool) : Z :=
  let score := 0%Z in
  let score := if tm then (score + 10)%Z else score in
  let score := if gm then (score + 5)%Z else score in
  let score := if cm then (score + 3)%Z else score in
  let score := if nm then (score + 1)%Z else score in
  score.

(** The body of the [for ... of this.searchData] loop: the results pushed,
    in the order of the collection. *)
Fixpoint scan (keywordLower : str) (searchData : list Document) : list Result :=
  match searchData with
  | [] => []
  | p :: rest =>
      let tm := titleMatch keywordLower p in
      let nm := contentMatch keywordLower p in
      let gm := tagMatch keywordLower p in
      let cm := categoryMatch keywordLower p in
      if tm || nm || gm || cm
      then mkResult p (relevance tm gm cm nm) (mkMatchedIn tm nm gm cm)
             :: scan keywordLower rest
      else scan keywordLower rest
  end.

(** The comparator of line 275: [(a, b) => b.score - a.score]. *)
Definition byScore (a b : Result) : Z := (score b - score a)%Z.

Definition search (searchData : list Document) (keyword : str) : list Result :=
  let keywordLower := toLowerCase keyword in
  let results := scan keywordLower searchData in
  sort byScore results.

(** ** [SearchEngine.getExcerpt] (search.js, lines 341-364) *)

Definition ellipsis : str := lit "...".

(** The default of the parameter [maxLength]. *)
Definition defaultMaxLength : Z := 150%Z.

Definition getExcerpt (content keyword : str) (maxLength : Z) : str :=
  match content with
  | [] => []
  | _ :: _ =>
      let keywordLower := toLowerCase keyword in
      let contentLower := toLowerCase content in
      let index := indexOf contentLower keywordLower in
      let len := Z.of_nat (length content) in
      if (index =? -1)%Z then
        substring content 0 maxLength
          ++ (if (len >? maxLength)%Z then ellipsis else [])
      else
        let start := Z.max 0 (index - 50) in
        let end_ := Z.min len (index + Z.of_nat (length keyword) + 100) in
        let excerpt := substring content start end_ in
        let excerpt := if (start >? 0)%Z then ellipsis ++ excerpt else excerpt in
        let excerpt := if (end_ <? len)%Z then excerpt ++ ellipsis else excerpt in
        excerpt
  end.

(** ** Regular expressions

    [highlight] builds a pattern from text and hands it to the [RegExp]
    constructor.  The model covers the patterns of the form [(D)] where
    [D] is a disjunction of sequences of single-character atoms (a
    pattern character, an escaped syntax character, or the dot), each
    with an optional greedy quantifier [*], [+] or [?].  Everything else
    -- a syntax error as well as a construct outside this fragment -- is
    [None]. *)

Inductive atom :=
| AChar (c : ascii)
| ADot.

Inductive quantifier := QOne | QStar | QPlus | QOpt.

Definition term : Type := atom * quantifier.
Definition alternative : Type := list term.
Definition disjunction : Type := list alternative.

(** The syntax characters of ECMAScript patterns. *)
Definition syntaxChars : str := lit "^$\.*+?()[]{}|".

Definition isSyntaxChar (c : ascii) : bool :=
  existsb (Ascii.eqb c) syntaxChars.

Definition quantifierOf (c : ascii) : option quantifier :=
  if Ascii.eqb c "*" then Some QStar
  else if Ascii.eqb c "+" then Some QPlus
  else if Ascii.eqb c "?" then Some QOpt
  else None.

(** Reads the inside of the group.  [done] holds the alternatives read so
    far and [cur] the terms of the current one, both latest first. *)
Fixpoint parseDisjunction (p : str) (done : list alternative) (cur : alternative)
  : option disjunction :=
  match p with
  | [] => Some (rev (rev cur :: done))
  | c :: p' =>
      if Ascii.eqb c "\" then
        match p' with
        | e :: p'' =>
            if isSyntaxChar e
            then parseDisjunction p'' done ((AChar e, QOne) :: cur)
            else None
        | [] => None
        end
      else if Ascii.eqb c "." then parseDisjunction p' done ((ADot, QOne) :: cur)
      else if Ascii.eqb c "|" then parseDisjunction p' (rev cur :: done) []
      else match quantifierOf c with
           | Some q =>
               match cur with
               | (a, QOne) :: cur' => parseDisjunction p' done ((a, q) :: cur')
               | _ => None
               end
           | None =>
               if isSyntaxChar c then None
               else parseDisjunction p' done ((AChar c, QOne) :: cur)
           end
  end.

(** The last character of a text and what stands before it. *)
Fixpoint unsnoc (s : str) : option (str * ascii) :=
  match s with
  | [] => None
  | c :: s' =>
      match unsnoc s' with
      | None => Some ([], c)
      | Some (body, z) => Some (c :: body, z)
      end
  end.

(** [new RegExp(pattern, 'gi')] for a pattern [(D)]. *)
Definition RegExp (pattern : str) : option disjunction :=
  match pattern with
  | c :: rest =>
      if Ascii.eqb c "(" then
        match unsnoc rest with
        | Some (body, z) =>
            if Ascii.eqb z ")" then parseDisjunction body [] [] else None
        | None => None
        end
      else None
  | [] => None
  end.

(** Matching under the flag [i]: two characters match when their upper
    case forms agree.  The dot matches everything but a line terminator. *)
Definition atomMatches (a : atom) (c : ascii) : bool :=
  match a with
  | AChar x => Ascii.eqb (upperChar x) (upperChar c)
  | ADot => negb (Ascii.eqb c (ascii_of_nat 10) || Ascii.eqb c (ascii_of_nat 13))
  end.

(** The length of the match of a sequence of terms at the start of [s],
    found by backtracking: a quantified atom takes as many characters as
    it can and gives them back one by one. *)
Fixpoint matchTerms (ts : alternative) (s : str) {struct ts} : option nat :=
  match ts with
  | [] => Some 0
  | (a, q) :: ts' =>
      let star :=
        fix star (s : str) : option nat :=
          match s with
          | c :: s' =>
              if atomMatches a c then
                match star s' with
                | Some n => Some (S n)
                | None => matchTerms ts' s
                end
              else matchTerms ts' s
          | [] => matchTerms ts' s
          end in
      match q with
      | QOne =>
          match s with
          | c :: s' =>
              if atomMatches a c then option_map S (matchTerms ts' s') else None
          | [] => None
          end
      | QOpt =>
          match s with
          | c :: s' =>
              if atomMatches a c then
                match matchTerms ts' s' with
                | Some n => Some (S n)
                | None => matchTerms ts' s
                end
              else matchTerms ts' s
          | [] => matchTerms ts' s
          end
      | QStar => star s
      | QPlus =>
          match s with
          | c :: s' => if atomMatches a c then option_map S (star s') else None
          | [] => None
          end
      end
  end.

(** The alternatives are tried from left to right. *)
Fixpoint matchDisjunction (d : disjunction) (s : str) : option nat :=
  match d with
  | [] => None
  | ts :: d' =>
      match matchTerms ts s with
      | Some n => Some n
      | None => matchDisjunction d' s
      end
  end.

(** The matches that a global regular expression finds in a text, as
    [String.prototype.replace] collects them before it substitutes: each
    with its position and the text matched.  [s] is what is left of the
    text from position [pos]; [skip] counts the characters of [s] that the
    previous match already covers.  After an empty match the search
    resumes one character further. *)
Fixpoint matchAll (d : disjunction) (s : str) (pos skip : nat) : list (nat * str) :=
  match s with
  | [] =>
      match skip, matchDisjunction d [] with
      | 0, Some _ => [(pos, [])]
      | _, _ => []
      end
  | _ :: s' =>
      match skip with
      | S k => matchAll d s' (S pos) k
      | 0 =>
          match matchDisjunction d s with
          | Some n => (pos, firstn n s) :: matchAll d s' (S pos) (pred n)
          | None => matchAll d s' (S pos) 0
          end
      end
  end.

(** The replacement text for one match.  The pattern is one group, so
    [$1] and [$&] both stand for the whole match; [$$] is a dollar sign.
    The other dollar forms are outside the model ([None]). *)
Fixpoint expandTemplate (template matched : str) : option str :=
  match template with
  | [] => Some []
  | c :: t' =>
      if Ascii.eqb c "$" then
        match t' with
        | [] => Some [c]
        | e :: t'' =>
            if Ascii.eqb e "1" || Ascii.eqb e "&"
            then option_map (app matched) (expandTemplate t'' matched)
            else if Ascii.eqb e "$"
            then option_map (cons e) (expandTemplate t'' matched)
            else None
        end
      else option_map (cons c) (expandTemplate t' matched)
  end.

(** The second half of [replace]: the text between the matches is copied
    and each match gives way to its replacement.  [s] is the text from
    position [pos] on. *)
Fixpoint substitute (template : str) (results : list (nat * str)) (s : str) (pos : nat)
  : option str :=
  match results with
  | [] => Some s
  | (position, matched) :: results' =>
      let gap := position - pos in
      let rest := skipn (gap + length matched) s in
      match expandTemplate template matched,
            substitute template results' rest (position + length matched) with
      | Some replacement, Some tail => Some (firstn gap s ++ replacement ++ tail)
      | _, _ => None
      end
  end.

(** [text.replace(regex, template)] for a global [regex]. *)
Definition replace (text : str) (regex : disjunction) (template : str) : option str :=
  substitute template (matchAll regex text 0 0) text 0.

(** ** Options (search.js, lines 15-26) *)

Record Options := mkOptions {
  searchPath : str;
  highlightClass : str;
  noResultsText : str;
  loadingText : str;
  minChars : Z
}.

Definition defaultOptions : Options :=
  mkOptions (lit "/search.json") (lit "search-highlight")
            (lit "No results found") (lit "Loading...") 2%Z.

(** ** [SearchEngine.highlight] (search.js, lines 328-336) *)

(** The character class of line 332. *)
Definition specialChars : str := lit ".*+?^${}()|[]\".

Definition isSpecial (c : ascii) : bool := existsb (Ascii.eqb c) specialChars.

(** [keyword.replace(/[.*+?^${}()|[\]\\]/g, '\\$&')]: a backslash is put
    before every character of the class. *)
Definition escapeRegExp (keyword : str) : str :=
  flat_map (fun c => if isSpecial c then ["\"%char; c] else [c]) keyword.

Definition markOpen (o : Options) : str :=
  lit "<mark class=" ++ [dquote] ++ highlightClass o ++ [dquote] ++ lit ">".

Definition markClose : str := lit "</mark>".

Definition markTemplate (o : Options) : str :=
  markOpen o ++ lit "$1" ++ markClose.

(** [None] stands for an exception thrown by [new RegExp] or for a
    pattern or template outside the model. *)
Definition highlight (o : Options) (text keyword : str) : option str :=
  match text, keyword with
  | [], _ => Some text
  | _, [] => Some text
  | _, _ =>
      let escapedKeyword := escapeRegExp keyword in
      match RegExp (lit "(" ++ escapedKeyword ++ lit ")") with
      | Some regex => replace text regex (markTemplate o)
      | None => None
      end
  end.


(** ** [SearchEngine.renderResults] (search.js, lines 285-322)

    The content of the results container is kept as a tree instead of as
    markup. *)

Record Item := mkItem {
  item_href : str;
  item_title : str;
  item_excerpt : str;
  item_tags : list str
}.

Inductive Panel :=
| PanelEmpty
| PanelLoading (text : str)
| PanelError
| PanelNoResults (text : str)
| PanelResults (items : list Item).

Fixpoint mapOption {A B : Type} (f : A -> option B) (l : list A) : option (list B) :=
  match l with
  | [] => Some []
  | x :: l' =>
      match f x, mapOption f l' with
      | Some y, Some ys => Some (y :: ys)
      | _, _ => None
      end
  end.

Definition renderItem (o : Options) (keyword : str) (result : Result) : option Item :=
  match highlight o (title (post result)) keyword with
  | None => None
  | Some highlightedTitle =>
      let excerpt := getExcerpt (content (post result)) keyword defaultMaxLength in
      match highlight o excerpt keyword with
      | None => None
      | Some highlightedExcerpt =>
          match mapOption (fun tag => highlight o tag keyword)
                          (firstn 3 (tags (post result))) with
          | None => None
          | Some highlightedTags =>
              Some (mkItem (url (post result)) highlightedTitle
                           highlightedExcerpt highlightedTags)
          end
      end
  end.

Definition renderResults (o : Options) (results : list Result) (keyword : str)
  : option Panel :=
  match results with
  | [] => Some (PanelNoResults (noResultsText o))
  | _ :: _ => option_map PanelResults (mapOption (renderItem o keyword) results)
  end.

(** ** The session state of a [SearchEngine]

    [inputValue] is the value of the input control, [panel] the content of
    the results container, [formOpen] the class [is-open] of the form
    wrapper.  [debouncePending] tells whether the timeout held by
    [debounceTimer] (line 69) is still to fire.  [fetches] and [scans]
    are counters of the calls of [fetch] and of [search] made so far;
    the program does not read them. *)

Record Engine := mkEngine {
  options : Options;
  searchData : option (list Document);
  isLoading : bool;
  isOpen : bool;
  formOpen : bool;
  inputValue : str;
  panel : Panel;
  debouncePending : bool;
  fetches : nat;
  scans : nat
}.

Definition set_panel (p : Panel) (s : Engine) : Engine :=
  mkEngine (options s) (searchData s) (isLoading s) (isOpen s) (formOpen s)
           (inputValue s) p (debouncePending s) (fetches s) (scans s).

Definition set_isLoading (b : bool) (s : Engine) : Engine :=
  mkEngine (options s) (searchData s) b (isOpen s) (formOpen s)
           (inputValue s) (panel s) (debouncePending s) (fetches s) (scans s).

Definition set_searchData (d : option (list Document)) (s : Engine) : Engine :=
  mkEngine (options s) d (isLoading s) (isOpen s) (formOpen s)
           (inputValue s) (panel s) (debouncePending s) (fetches s) (scans s).

Definition set_open (b : bool) (s : Engine) : Engine :=
  mkEngine (options s) (searchData s) (isLoading s) b b
           (inputValue s) (panel s) (debouncePending s) (fetches s) (scans s).

Definition set_inputValue (v : str) (s : Engine) : Engine :=
  mkEngine (options s) (searchData s) (isLoading s) (isOpen s) (formOpen s)
           v (panel s) (debouncePending s) (fetches s) (scans s).

Definition set_debouncePending (b : bool) (s : Engine) : Engine :=
  mkEngine (options s) (searchData s) (isLoading s) (isOpen s) (formOpen s)
           (inputValue s) (panel s) b (fetches s) (scans s).

Definition count_fetch (s : Engine) : Engine :=
  mkEngine (options s) (searchData s) (isLoading s) (isOpen s) (formOpen s)
           (inputValue s) (panel s) (debouncePending s) (S (fetches s)) (scans s).

Definition count_scan (s : Engine) : Engine :=
  mkEngine (options s) (searchData s) (isLoading s) (isOpen s) (formOpen s)
           (inputValue s) (panel s) (debouncePending s) (fetches s) (S (scans s)).

(** The state the constructor leaves (lines 28-30). *)
Definition initial (o : Options) : Engine :=
  mkEngine o None false false false [] PanelEmpty false 0 0.

(** ** [SearchEngine.loadSearchData] (search.js, lines 137-161)

    The function runs up to its first [await] when it is called
    ([loadSearchData]) and goes on when the fetch settles
    ([loadSearchData_settled]).  What the fetch brings is a
    [FetchOutcome]: the promise is rejected, or there is a response with
    its [ok] flag and its body.  The body is given as [processSearchData]
    returns it; [None] is a body that [response.json()] rejects or on
    which [processSearchData] throws. *)

Inductive FetchOutcome :=
| FetchRejected
| FetchResponse (ok : bool) (body : option (list Document)).

Definition loadSearchData (s : Engine) : Engine :=
  count_fetch
    (set_panel (PanelLoading (loadingText (options s)))
       (set_isLoading true s)).

(** ** [SearchEngine.handleSearch] (search.js, lines 214-233)

    [None] is an exception that leaves the function. *)

Definition handleSearch (s : Engine) (keyword : str) : option Engine :=
  let keyword := trim keyword in
  if (Z.of_nat (length keyword) <? minChars (options s))%Z then
    Some (set_panel PanelEmpty s)
  else
    match searchData s with
    | None =>
        if negb (isLoading s) then Some (loadSearchData s) else Some s
    | Some data =>
        let results := search data keyword in
        match renderResults (options s) results keyword with
        | Some p => Some (set_panel p (count_scan s))
        | None => None
        end
    end.

Definition loadFailed (s : Engine) : Engine :=
  set_isLoading false (set_panel PanelError s).

Definition loadSearchData_settled (s : Engine) (r : FetchOutcome) : Engine :=
  match r with
  | FetchResponse true (Some data) =>
      let s1 := set_panel PanelEmpty (set_searchData (Some data) s) in
      let currentValue := inputValue s1 in
      match currentValue with
      | _ :: _ =>
          if (Z.of_nat (length currentValue) >=? minChars (options s1))%Z then
            match handleSearch s1 currentValue with
            | Some s2 => set_isLoading false s2
            | None => loadFailed s1
            end
          else set_isLoading false s1
      | [] => set_isLoading false s1
      end
  | _ => loadFailed s
  end.

(** ** [openSearch], [closeSearch], [toggleSearch] (lines 101-132) *)

Definition openSearch (s : Engine) : Engine :=
  let s := set_open true s in
  match searchData s with
  | None => if negb (isLoading s) then loadSearchData s else s
  | Some _ => s
  end.

Definition closeSearch (s : Engine) : Engine :=
  set_panel PanelEmpty (set_inputValue [] (set_open false s)).

Definition toggleSearch (s : Engine) : Engine :=
  if isOpen s then closeSearch s else openSearch s.

(** ** The events bound by [bindEvents] (lines 55-96) and the fetch *)

Inductive Event :=
| ToggleClick
| CloseClick
| InputEvent (value : str)
| DebounceElapsed
| EscapeKey
| OutsideClick
| FetchSettled (r : FetchOutcome).

(** An uncaught exception in a timer callback changes nothing. *)
Definition orElse (s : Engine) (r : option Engine) : Engine :=
  match r with
  | Some s' => s'
  | None => s
  end.

Definition step (s : Engine) (e : Event) : Engine :=
  match e with
  | ToggleClick => toggleSearch s
  | CloseClick => closeSearch s
  | InputEvent v =>
      (* the control holds [v]; clearTimeout, then setTimeout *)
      set_debouncePending true (set_inputValue v s)
  | DebounceElapsed =>
      if debouncePending s then
        let s := set_debouncePending false s in
        orElse s (handleSearch s (inputValue s))
      else s
  | EscapeKey => if isOpen s then closeSearch s else s
  | OutsideClick => if isOpen s then closeSearch s else s
  | FetchSettled r => if isLoading s then loadSearchData_settled s r else s
  end.

Definition run (s : Engine) (es : list Event) : Engine := fold_left step es s.

(** ** The constructor (search.js, lines 14-33) and the engine of the
    page (lines 368-375)

    [GivenOptions] holds the properties that the object handed to the
    constructor has; [Object.assign] lets each of them replace the
    default. *)







(** ** The values [response.json()] gives

    A number is kept as an integer: the program only asks of a number
    whether it is zero.  [None] of [option JSON] is [undefined]. *)

#[warnings="-register-all"]
Inductive JSON :=
| JNull
| JBool (b : bool)
| JNumber (n : Z)
| JString (s : str)
| JArray (items : list JSON)
| JObject (props : list (str * JSON)).

Fixpoint strEqb (a b : str) : bool :=
  match a, b with
  | [], [] => true
  | x :: a', y :: b' => Ascii.eqb x y && strEqb a' b'
  | _, _ => false
  end.

(** The value of the property [k] among the properties of an object. *)
Fixpoint lookup (k : str) (props : list (str * JSON)) : option JSON :=
  match props with
  | [] => None
  | (k', v) :: rest => if strEqb k k' then Some v else lookup k rest
  end.

(** What [if (v)], [!v] and [v || w] ask of a value. *)
Definition truthy (v : option JSON) : bool :=
  match v with
  | None => false
  | Some JNull => false
  | Some (JBool b) => b
  | Some (JNumber n) => negb (n =? 0)%Z
  | Some (JString s) => match s with [] => false | _ :: _ => true end
  | Some (JArray _) => true
  | Some (JObject _) => true
  end.

(** [v.k] for the property names the program reads ([posts], [title],
    [url], [path], [content], [tags], [categories], [name], [password],
    [timestamp]), none of which a string, a number, a boolean or an
    array has.  The outer
    [None] is the TypeError of reading a property of [null] or
    [undefined]. *)
Definition getProp (v : option JSON) (k : str) : option (option JSON) :=
  match v with
  | None => None
  | Some JNull => None
  | Some (JObject props) => Some (lookup k props)
  | Some _ => Some None
  end.

(** [v || w]. *)
Definition orElseValue (v : option JSON) (w : JSON) : JSON :=
  match v with
  | Some x => if truthy v then x else w
  | None => w
  end.

(** ** [extractTags], [extractCategories], [stripHtml] and
    [processSearchData] (search.js, lines 166-208)

    In the results, [None] is an exception thrown. *)

Notation "'let?' x ':=' e 'in' k" :=
  (match e with Some x => k | None => None end)
  (at level 10, x name, e at level 100, k at level 200).

(** [typeof tag === 'string' ? tag : (tag.name || '')]. *)
Definition tagName (tag : JSON) : option JSON :=
  match tag with
  | JString _ => Some tag
  | _ =>
      match getProp (Some tag) (lit "name") with
      | Some name => Some (orElseValue name (JString []))
      | None => None
      end
  end.

Definition extractTags (tags : option JSON) : option (list JSON) :=
  if negb (truthy tags) then Some []
  else match tags with
       | Some (JArray items) => mapOption tagName items
       | _ => Some []
       end.

(** [cat => typeof cat === 'string' ? cat : (cat.name || '')]. *)
Definition categoryName (cat : JSON) : option JSON :=
  match cat with
  | JString _ => Some cat
  | _ =>
      match getProp (Some cat) (lit "name") with
      | Some name => Some (orElseValue name (JString []))
      | None => None
      end
  end.

Definition extractCategories (categories : option JSON) : option (list JSON) :=
  if negb (truthy categories) then Some []
  else match categories with
       | Some (JArray items) => mapOption categoryName items
       | _ => Some []
       end.

(** An element of the array that [processSearchData] returns.  The title
    and the url are the values found in the post, whatever their type. *)
Record Entry := mkEntry {
  entry_title : JSON;
  entry_url : JSON;
  entry_content : str;
  entry_tags : list JSON;
  entry_categories : list JSON
}.

Section ProcessSearchData.

(** The browser: the [textContent] and the [innerText] of a [div] whose
    [innerHTML] has been set to a value. *)
Variable textContent : JSON -> str.
Variable innerText : JSON -> str.

(** [tmp.textContent || tmp.innerText || '']. *)
Definition stripHtml (html : JSON) : str :=
  match textContent html with
  | c :: t => c :: t
  | [] =>
      match innerText html with
      | c :: t => c :: t
      | [] => []
      end
  end.

(** The function mapped over the posts (lines 170-176). *)
Definition processPost (p : JSON) : option Entry :=
  let? title_ := getProp (Some p) (lit "title") in
  let? url_ := getProp (Some p) (lit "url") in
  let? urlOrPath :=
    (if truthy url_ then Some url_ else getProp (Some p) (lit "path")) in
  let? content_ := getProp (Some p) (lit "content") in
  let? tags_ := getProp (Some p) (lit "tags") in
  let? tagList := extractTags tags_ in
  let? categories_ := getProp (Some p) (lit "categories") in
  let? categoryList := extractCategories categories_ in
  Some (mkEntry (orElseValue title_ (JString []))
                (orElseValue urlOrPath (JString []))
                (stripHtml (orElseValue content_ (JString [])))
                tagList categoryList).

(** [Array.isArray(data) ? data : (data.posts || [])], then [posts.map];
    [map] is a function only when [posts] is an array. *)
Definition processSearchData (data : JSON) : option (list Entry) :=
  let posts :=
    match data with
    | JArray _ => Some data
    | _ =>
        match getProp (Some data) (lit "posts") with
        | Some found => Some (orElseValue found (JArray []))
        | None => None
        end
    end in
  match posts with
  | Some (JArray items) => mapOption processPost items
  | _ => None
  end.

End ProcessSearchData.

(** ** The encryption module (search.js, lines 388-651): the identifier
    of a page and the passwords kept for the session *)

(** [path.replace(/\/$/, '')]: a slash at the very end goes. *)
Definition dropFinalSlash (path : str) : str :=
  match unsnoc path with
  | Some (body, z) => if Ascii.eqb z "/" then body else path
  | None => path
  end.

(** [.replace(/\//g, '_')]. *)
Definition slashesToUnderscores (s : str) : str :=
  map (fun c => if Ascii.eqb c "/" then "_"%char else c) s.

(** [getPageId] (lines 584-589), of [window.location.pathname]. *)
Definition getPageId (pathname : str) : str :=
  match slashesToUnderscores (dropFinalSlash pathname) with
  | [] => lit "index"
  | c :: id => c :: id
  end.

(** [sessionStorage]: the items it holds, and whether it can be used at
    all; the use of a storage that cannot throws. *)
Record Storage := mkStorage {
  accessible : bool;
  stored : list (str * str)
}.

Fixpoint findItem (k : str) (l : list (str * str)) : option str :=
  match l with
  | [] => None
  | (k', v) :: rest => if strEqb k k' then Some v else findItem k rest
  end.

Definition dropItem (k : str) (l : list (str * str)) : list (str * str) :=
  filter (fun kv => negb (strEqb k (fst kv))) l.

Definition storagePrefix : str := lit "hexo_blog_encrypt_".

(** 24 hours in milliseconds. *)
Definition sessionDuration : Z := (24 * 60 * 60 * 1000)%Z.

Definition storageTestKey : str := lit "__storage_test__".

(** What [checkStoredPasswords] leaves: the value handed to the password
    input, if any, and the storage. *)
Record Checked := mkChecked {
  filled : option JSON;
  storageAfter : Storage
}.

Section EncryptionModule.

(** The runtime: [JSON.stringify], [JSON.parse] ([None] is a syntax
    error), and whether the quota of the storage lets an item be set. *)
Variable JSON_stringify : JSON -> str.
Variable JSON_parse : str -> option JSON.
Variable hasRoom : list (str * str) -> str -> str -> bool.

(** The three operations of the storage; [None] is an exception. *)
Definition setItem (st : Storage) (k v : str) : option Storage :=
  if accessible st && hasRoom (stored st) k v
  then Some (mkStorage (accessible st) ((k, v) :: dropItem k (stored st)))
  else None.

Definition removeItem (st : Storage) (k : str) : option Storage :=
  if accessible st
  then Some (mkStorage (accessible st) (dropItem k (stored st)))
  else None.

Definition getItem (st : Storage) (k : str) : option (option str) :=
  if accessible st then Some (findItem k (stored st)) else None.

(** [isStorageAvailable] (lines 595-604): the answer and the storage it
    leaves. *)
Definition isStorageAvailable (st : Storage) : bool * Storage :=
  match setItem st storageTestKey storageTestKey with
  | Some st1 =>
      match removeItem st1 storageTestKey with
      | Some st2 => (true, st2)
      | None => (false, st1)
      end
  | None => (false, st)
  end.

(** [storePassword] (lines 531-547); [now] is [Date.now()]. *)
Definition storePassword (st : Storage) (pageId password : str) (now : Z) : Storage :=
  let (available, st1) := isStorageAvailable st in
  if negb available then st1
  else
    let data := JObject [(lit "password", JString password);
                         (lit "timestamp", JNumber now)] in
    match setItem st1 (storagePrefix ++ pageId) (JSON_stringify data) with
    | Some st2 => st2
    | None => st1
    end.

(** [getStoredPassword] (lines 554-564); [JNull] is [null]. *)
Definition getStoredPassword (st : Storage) (pageId : str) : JSON * Storage :=
  let (available, st1) := isStorageAvailable st in
  if negb available then (JNull, st1)
  else
    match getItem st1 (storagePrefix ++ pageId) with
    | Some (Some (c :: data)) =>
        match JSON_parse (c :: data) with
        | Some v => (v, st1)
        | None => (JNull, st1)
        end
    | _ => (JNull, st1)
    end.

(** [removeStoredPassword] (lines 570-578). *)
Definition removeStoredPassword (st : Storage) (pageId : str) : Storage :=
  let (available, st1) := isStorageAvailable st in
  if negb available then st1
  else
    match removeItem st1 (storagePrefix ++ pageId) with
    | Some st2 => st2
    | None => st1
    end.

(** [Date.now() - timestamp < sessionDuration].  A timestamp that is not
    there makes the difference NaN and the test false; [null] counts as
    0 and a boolean as 0 or 1.  The conversion of a text, an array or an
    object to a number is outside of the model ([None]). *)
Definition stillValid (now : Z) (timestamp : option JSON) : option bool :=
  match timestamp with
  | None => Some false
  | Some JNull => Some (now - 0 <? sessionDuration)%Z
  | Some (JBool b) => Some (now - (if b then 1 else 0) <? sessionDuration)%Z
  | Some (JNumber t) => Some (now - t <? sessionDuration)%Z
  | Some _ => None
  end.

(** [checkStoredPasswords] (lines 451-473).  [inputPresent] tells
    whether the page has a password input. *)
Definition checkStoredPasswords (st : Storage) (pathname : str) (now : Z)
           (inputPresent : bool) : option Checked :=
  match getPageId pathname with
  | [] => Some (mkChecked None st)
  | c :: id =>
      let pageId := c :: id in
      let (storedData, st1) := getStoredPassword st pageId in
      match getProp (Some storedData) (lit "password") with
      | Some password =>
          if truthy (Some storedData) && truthy password then
            match stillValid now (match getProp (Some storedData) (lit "timestamp") with
                                  | Some t => t
                                  | None => None
                                  end) with
            | Some true =>
                Some (mkChecked (if inputPresent then password else None) st1)
            | Some false =>
                Some (mkChecked None (removeStoredPassword st1 pageId))
            | None => None
            end
          else Some (mkChecked None st1)
      | None => Some (mkChecked None st1)
      end
  end.

(** The storing part of [onDecryptSuccess] (lines 632-640); [password]
    is the value of the password input, [None] when there is none. *)
Definition onDecryptSuccess (st : Storage) (pathname : str) (password : option str)
           (now : Z) : Storage :=
  match getPageId pathname, password with
  | _ :: _, Some (c :: pw) => storePassword st (getPageId pathname) (c :: pw) now
  | _, _ => st
  end.

End EncryptionModule.

(** ** What the specification says, in its own words

    The definitions of this section are not taken from the program: they
    state the notions that the specification and the theorems use, so
    that the program can be compared with them. *)

(** Two texts are equal when case is ignored. *)
Definition ciEq (a b : str) : Prop := toLowerCase a = toLowerCase b.




Definition b2z (b : bool) : Z := if b then 1%Z else 0%Z.

(** The flags and the score of a document for a lowered keyword. *)
Definition flagsOf (keywordLower : str) (p : Document) : MatchedIn :=
  mkMatchedIn (titleMatch keywordLower p) (contentMatch keywordLower p)
              (tagMatch keywordLower p) (categoryMatch keywordLower p).

Definition isHit (keywordLower : str) (p : Document) : bool :=
  titleMatch keywordLower p || contentMatch keywordLower p
  || tagMatch keywordLower p || categoryMatch keywordLower p.

Definition scoreOf (keywordLower : str) (p : Document) : Z :=
  relevance (titleMatch keywordLower p) (tagMatch keywordLower p)
            (categoryMatch keywordLower p) (contentMatch keywordLower p).


(** ** Sample data *)

Definition rustGuide : Document :=
  mkDocument (lit "Rust Guide") (lit "/rust/") (lit "A guide to the Rust language")
             [lit "systems"] [].

Definition goTutorial : Document :=
  mkDocument (lit "Go Tutorial") (lit "/go/") (lit "rust is mentioned here")
             [] [lit "languages"].


(** Descending order of score. *)
Definition scoreGe (a b : Result) : Prop := (score a >= score b)%Z.


(** [s] begins with [q], up to case. *)
Definition ciPrefix (q s : str) : Prop :=
  exists m suf, s = m ++ suf /\ ciEq m q.

(** The text read from left to right, from position [pos] on: where the
    query stands, up to case, the occurrence is wrapped in the marker and
    reading resumes after it; elsewhere a character is copied.  [hits]
    are the occurrences wrapped, each with its position, and [out] is
    the marked-up text. *)
Inductive Marked (o : Options) (q : str)
  : nat -> str -> list (nat * str) -> str -> Prop :=
| Marked_end pos : Marked o q pos [] [] []
| Marked_hit pos m t hits out :
    ciEq m q ->
    Marked o q (pos + length m) t hits out ->
    Marked o q pos (m ++ t) ((pos, m) :: hits)
           (markOpen o ++ m ++ markClose ++ out)
| Marked_copy pos c t hits out :
    ~ ciPrefix q (c :: t) ->
    Marked o q (S pos) t hits out ->
    Marked o q pos (c :: t) hits (c :: out).

(** No dollar sign in a text. *)
Definition noDollar (s : str) : Prop := ~ In "$"%char s.

(** The pattern that matches the text [k] and nothing else. *)
Definition literal (k : str) : disjunction :=
  [map (fun c => (AChar c, QOne)) k].

(** A text of white space only. *)
Definition allWhite (s : str) : Prop := Forall (fun c => isWhiteSpace c = true) s.

(** A fetch that brings no collection: the promise is rejected, the
    status is not a success, or the body cannot be read. *)
Definition failed (r : FetchOutcome) : Prop :=
  match r with
  | FetchResponse true (Some _) => False
  | _ => True
  end.

Definition isInput (e : Event) : bool :=
  match e with
  | InputEvent _ => true
  | _ => false
  end.

(** The results container shows the outcome of a search. *)
Definition showsSearch (p : Panel) : bool :=
  match p with
  | PanelResults _ | PanelNoResults _ => true
  | _ => false
  end.

(** The states a session can be in: those the events lead to from the
    state the constructor leaves. *)
Definition reachable (s : Engine) : Prop :=
  exists o es, s = run (initial o) es.

(** While a fetch is under way there is no collection. *)
Definition loadingWithoutData (s : Engine) : Prop :=
  isLoading s = true -> searchData s = None.

(** What every reachable session keeps: search results are shown only
    when a collection is loaded, the loading message only while a load
    is under way, and the open flag goes with the class [is-open]. *)
Definition sessionInvariant (s : Engine) : Prop :=
  (showsSearch (panel s) = true -> searchData s <> None) /\
  (forall text, panel s = PanelLoading text -> isLoading s = true) /\
  isOpen s = formOpen s.

(** An array that holds [null]. *)
Definition hasNull (v : option JSON) : Prop :=
  exists items, v = Some (JArray items) /\ In JNull items.

(** A post on which the function mapped by [processSearchData] throws:
    [null], or an object with [null] among its tags or its categories. *)
Definition badPost (p : JSON) : Prop :=
  p = JNull \/
  exists props, p = JObject props /\
                (hasNull (lookup (lit "tags") props) \/
                 hasNull (lookup (lit "categories") props)).

(** A property that is a text or is not there, and the text it stands
    for. *)
Definition textOrAbsent (v : option JSON) : Prop :=
  v = None \/ exists s, v = Some (JString s).

Definition textOf (v : option JSON) : str :=
  match v with
  | Some (JString s) => s
  | _ => []
  end.

(** A tag or category as the index generator writes it: a text, or an
    object whose [name] is a text or is not there. *)
Definition plainLabel (t : JSON) : Prop :=
  (exists s, t = JString s) \/
  (exists props, t = JObject props /\ textOrAbsent (lookup (lit "name") props)).

Definition labelText (t : JSON) : str :=
  match t with
  | JString s => s
  | JObject props => textOf (lookup (lit "name") props)
  | _ => []
  end.

(** A list of tags or categories that is not there or is an array of
    plain labels, and the texts it stands for. *)
Definition plainLabels (v : option JSON) : Prop :=
  v = None \/ exists items, v = Some (JArray items) /\ Forall plainLabel items.

Definition labelTexts (v : option JSON) : list str :=
  match v with
  | Some (JArray items) => map labelText items
  | _ => []
  end.

(** The entry whose fields are the given texts. *)
Definition entryOf (d : Document) : Entry :=
  mkEntry (JString (title d)) (JString (url d)) (content d)
          (map JString (tags d)) (map JString (categories d)).

(** A text that does not end with a slash. *)
Definition noFinalSlash (p : str) : Prop := forall body, p <> body ++ ["/"%char].

(** The object kept for a password. *)
Definition passwordEntry (password : str) (timestamp : Z) : JSON :=
  JObject [(lit "password", JString password); (lit "timestamp", JNumber timestamp)].

(** A post as the index generator writes it: an object whose title, url,
    path and content are texts or are not there, and whose tags and
    categories are not there or are arrays of plain labels. *)
Definition plainPost (p : JSON) : Prop :=
  exists props,
    p = JObject props /\
    textOrAbsent (lookup (lit "title") props) /\
    textOrAbsent (lookup (lit "url") props) /\
    textOrAbsent (lookup (lit "path") props) /\
    textOrAbsent (lookup (lit "content") props) /\
    plainLabels (lookup (lit "tags") props) /\
    plainLabels (lookup (lit "categories") props).

(** The document that a plain post stands for, given what the browser
    makes of its content: the title or the empty text, the url or else
    the path or else the empty text, the stripped content, and the text
    of each tag and category. *)
Definition documentOf (textContent innerText : JSON -> str) (p : JSON) : Document :=
  match p with
  | JObject props =>
      mkDocument
        (textOf (lookup (lit "title") props))
        (match textOf (lookup (lit "url") props) with
         | [] => textOf (lookup (lit "path") props)
         | c :: u => c :: u
         end)
        (stripHtml textContent innerText
           (JString (textOf (lookup (lit "content") props))))
        (labelTexts (lookup (lit "tags") props))
        (labelTexts (lookup (lit "categories") props))
  | _ => mkDocument [] [] [] [] []
  end.

(* ================================================================= *)
(** * Part II: theorems *)
(* ================================================================= *)

(** ** Strings *)

Section StringFacts.

Lemma startsWith_app (s p : str) :
  startsWith s p = true <-> exists suf, s = p ++ suf.
Proof.
  revert s; induction p as [|a p IH]; intros s; simpl.
  - split; [intros _; now exists s | reflexivity].
  - destruct s as [|b s]; simpl.
    + split; [discriminate | intros [suf H]; discriminate].
    + rewrite andb_true_iff, Ascii.eqb_eq, IH. split.
      * intros [-> [suf ->]]. now exists suf.
      * intros [suf H]. injection H as -> ->. split; [reflexivity | now exists suf].
Qed.






Lemma toLowerCase_app (a b : str) :
  toLowerCase (a ++ b) = toLowerCase a ++ toLowerCase b.
Proof. apply map_app. Qed.

Lemma toLowerCase_length (a : str) : length (toLowerCase a) = length a.
Proof. apply length_map. Qed.

Lemma lowerChar_idem (c : ascii) : lowerChar (lowerChar c) = lowerChar c.
Proof.
  destruct c as [[] [] [] [] [] [] [] []]; reflexivity.
Qed.

Lemma toLowerCase_idem (a : str) : toLowerCase (toLowerCase a) = toLowerCase a.
Proof.
  unfold toLowerCase. rewrite map_map. apply map_ext. apply lowerChar_idem.
Qed.


End StringFacts.

(** ** Sorting *)

Section SortFacts.

Lemma sort_insert_perm (x : Result) (l : list Result) :
  Permutation (x :: l) (sort_insert byScore x l).
Proof.
  induction l as [|y l IH]; simpl.
  - apply Permutation_refl.
  - destruct (byScore x y <=? 0)%Z.
    + apply Permutation_refl.
    + eapply perm_trans; [apply perm_swap | apply perm_skip, IH].
Qed.

Lemma sort_perm (l : list Result) : Permutation l (sort byScore l).
Proof.
  induction l as [|x l IH]; simpl.
  - apply perm_nil.
  - eapply perm_trans; [apply perm_skip, IH | apply sort_insert_perm].
Qed.

Lemma sort_In (l : list Result) (r : Result) :
  In r (sort byScore l) <-> In r l.
Proof.
  split; intros H.
  - eapply Permutation_in; [apply Permutation_sym, sort_perm | exact H].
  - eapply Permutation_in; [apply sort_perm | exact H].
Qed.

Lemma sort_insert_sorted (x : Result) (l : list Result) :
  StronglySorted scoreGe l -> StronglySorted scoreGe (sort_insert byScore x l).
Proof.
  induction 1 as [|y l Hl IH Hy]; simpl.
  - constructor; [constructor | constructor].
  - unfold byScore at 1. destruct (score y - score x <=? 0)%Z eqn:E.
    + apply Z.leb_le in E. constructor.
      * now constructor.
      * constructor.
        -- unfold scoreGe. lia.
        -- eapply Forall_impl; [| exact Hy]. unfold scoreGe. intros a Ha. lia.
    + apply Z.leb_gt in E. constructor; [exact IH |].
      eapply Permutation_Forall; [apply sort_insert_perm |].
      constructor; [unfold scoreGe; lia | exact Hy].
Qed.

Lemma sort_sorted (l : list Result) : StronglySorted scoreGe (sort byScore l).
Proof.
  induction l as [|x l IH]; simpl.
  - constructor.
  - now apply sort_insert_sorted.
Qed.

(** Insertion does not move an element past another of the same score. *)
Lemma sort_insert_filter (z : Z) (x : Result) (l : list Result) :
  filter (fun r => (score r =? z)%Z) (sort_insert byScore x l)
  = filter (fun r => (score r =? z)%Z) (x :: l).
Proof.
  induction l as [|y l IH]; [reflexivity |].
  simpl sort_insert. unfold byScore at 1.
  destruct (score y - score x <=? 0)%Z eqn:E; [reflexivity |].
  apply Z.leb_gt in E. simpl in IH |- *. rewrite IH.
  destruct (score x =? z)%Z eqn:Ex, (score y =? z)%Z eqn:Ey; try reflexivity.
  apply Z.eqb_eq in Ex, Ey. lia.
Qed.

Lemma sort_filter (z : Z) (l : list Result) :
  filter (fun r => (score r =? z)%Z) (sort byScore l)
  = filter (fun r => (score r =? z)%Z) l.
Proof.
  induction l as [|x l IH]; [reflexivity |].
  simpl sort. rewrite sort_insert_filter. simpl. now rewrite IH.
Qed.

(** Two lists in descending order of score that agree, score by score, on
    their elements and the order of these are equal. *)
Lemma sorted_stable_unique (l1 l2 : list Result) :
  StronglySorted scoreGe l1 -> StronglySorted scoreGe l2 ->
  (forall z, filter (fun r => (score r =? z)%Z) l1
             = filter (fun r => (score r =? z)%Z) l2) ->
  l1 = l2.
Proof.
  assert (Hle : forall a la b lb,
             Forall (scoreGe a) la ->
             filter (fun r => (score r =? score b)%Z) (a :: la)
             = filter (fun r => (score r =? score b)%Z) (b :: lb) ->
             (score b <= score a)%Z).
  { intros a la b lb Hf H.
    assert (Hin : In b (filter (fun r => (score r =? score b)%Z) (a :: la))).
    { rewrite H. simpl. rewrite Z.eqb_refl. now left. }
    apply filter_In in Hin. destruct Hin as [[-> | Hin] _]; [lia |].
    rewrite Forall_forall in Hf. specialize (Hf b Hin). unfold scoreGe in Hf. lia. }
  revert l2; induction l1 as [|x l1 IH]; intros l2 S1 S2 H.
  - destruct l2 as [|y l2]; [reflexivity |].
    specialize (H (score y)). simpl in H. rewrite Z.eqb_refl in H. discriminate.
  - destruct l2 as [|y l2].
    { specialize (H (score x)). simpl in H. rewrite Z.eqb_refl in H. discriminate. }
    apply StronglySorted_inv in S1. destruct S1 as [S1 F1].
    apply StronglySorted_inv in S2. destruct S2 as [S2 F2].
    assert (E : score x = score y).
    { pose proof (Hle x l1 y l2 F1 (H (score y))).
      pose proof (Hle y l2 x l1 F2 (eq_sym (H (score x)))). lia. }
    pose proof (H (score x)) as Hx. simpl in Hx.
    rewrite <- E, Z.eqb_refl in Hx. injection Hx as <- _.
    f_equal. apply IH; auto.
    intros z. specialize (H z). simpl in H.
    destruct (score x =? z)%Z; [now injection H | exact H].
Qed.

(** Whatever stable sort the engine runs, the array it returns is the one
    computed by [sort]. *)
Lemma sort_characterised (l l' : list Result) :
  StronglySorted scoreGe l' ->
  (forall z, filter (fun r => (score r =? z)%Z) l'
             = filter (fun r => (score r =? z)%Z) l) ->
  l' = sort byScore l.
Proof.
  intros S H. apply sorted_stable_unique; [exact S | apply sort_sorted |].
  intros z. now rewrite sort_filter.
Qed.

End SortFacts.

(** ** The scan of the collection *)

Section ScanFacts.

Variable kw : str.

Lemma scan_In (r : Result) (data : list Document) :
  In r (scan kw data) <->
  In (post r) data /\ isHit kw (post r) = true /\
  score r = scoreOf kw (post r) /\ matchedIn r = flagsOf kw (post r).
Proof.
  induction data as [|p rest IH]; simpl.
  - tauto.
  - fold (isHit kw p).
    destruct (isHit kw p) eqn:E; simpl; rewrite IH.
    + split.
      * intros [<- | H]; simpl; [| tauto].
        repeat split; auto.
      * intros ([-> | H] & H1 & H2 & H3); [left | tauto].
        destruct r as [d sc m]; simpl in *. now subst.
    + split; [tauto |].
      intros ([-> | H] & H1 & H2 & H3); [congruence | tauto].
Qed.

(** The results are pushed in the order of the collection. *)
Lemma scan_posts (data : list Document) :
  map post (scan kw data) = filter (isHit kw) data.
Proof.
  induction data as [|p rest IH]; simpl; [reflexivity |].
  fold (isHit kw p). destruct (isHit kw p); simpl; now rewrite IH.
Qed.

Lemma scan_posts_score (z : Z) (data : list Document) :
  map post (filter (fun r => (score r =? z)%Z) (scan kw data))
  = filter (fun d => isHit kw d && (scoreOf kw d =? z)%Z) data.
Proof.
  induction data as [|p rest IH]; simpl; [reflexivity |].
  fold (isHit kw p). fold (scoreOf kw p).
  destruct (isHit kw p); simpl; [| exact IH].
  destruct (scoreOf kw p =? z)%Z; simpl; now rewrite IH.
Qed.

End ScanFacts.

Lemma filter_split {A : Type} (f : A -> bool) (l a b : list A) (x : A) :
  filter f l = a ++ x :: b ->
  exists l1 l2, l = l1 ++ x :: l2 /\ filter f l1 = a /\ filter f l2 = b.
Proof.
  revert a; induction l as [|y l IH]; intros a H; simpl in H.
  - destruct a; discriminate.
  - destruct (f y) eqn:E.
    + destruct a as [|a0 a]; simpl in H.
      * injection H as -> Hb. exists [], l. simpl. now rewrite Hb.
      * injection H as -> H. destruct (IH a H) as (l1 & l2 & -> & H1 & H2).
        exists (a0 :: l1), l2. simpl. rewrite E, H1. auto.
    + destruct (IH a H) as (l1 & l2 & -> & H1 & H2).
      exists (y :: l1), l2. simpl. rewrite E. auto.
Qed.



(** ** The claims about [search] *)


(** C2.  Every result carries the four match flags of its document, its
    score is 10 for the title, 5 for the tags, 3 for the categories and 1
    for the content, added up over the flags that are set, and so a result
    matched in title and content scores strictly higher than any result
    matched in the content alone. *)
Theorem search_score_additive (data : list Document) (q : str) (r : Result) :
  In r (search data q) ->
  matchedIn r = flagsOf (toLowerCase q) (post r) /\
  score r = (10 * b2z (in_title (matchedIn r))
             + 5 * b2z (in_tags (matchedIn r))
             + 3 * b2z (in_categories (matchedIn r))
             + 1 * b2z (in_content (matchedIn r)))%Z /\
  (forall data' q' r',
      In r' (search data' q') ->
      in_title (matchedIn r) = true -> in_content (matchedIn r) = true ->
      in_title (matchedIn r') = false -> in_tags (matchedIn r') = false ->
      in_categories (matchedIn r') = false -> in_content (matchedIn r') = true ->
      (score r' < score r)%Z).
Proof.
  assert (Hsum : forall data q r, In r (search data q) ->
            matchedIn r = flagsOf (toLowerCase q) (post r) /\
            score r = (10 * b2z (in_title (matchedIn r))
                       + 5 * b2z (in_tags (matchedIn r))
                       + 3 * b2z (in_categories (matchedIn r))
                       + 1 * b2z (in_content (matchedIn r)))%Z).
  { clear. intros data q r Hr. apply sort_In, scan_In in Hr.
    destruct Hr as (_ & _ & Hs & Hm). split; [exact Hm |].
    rewrite Hs, Hm. unfold scoreOf, relevance, flagsOf. simpl.
    destruct (titleMatch _ _), (tagMatch _ _), (categoryMatch _ _),
      (contentMatch _ _); reflexivity. }
  intros Hr. destruct (Hsum _ _ _ Hr) as [Hm Hs]. repeat split; auto.
  intros data' q' r' Hr' T C T' G' K' C'.
  destruct (Hsum _ _ _ Hr') as [_ Hs']. rewrite Hs, Hs', T, C, T', G', K', C'.
  destruct (in_tags (matchedIn r)), (in_categories (matchedIn r)); simpl; lia.
Qed.

(** C3.  The results are in descending order of score; the results of any
    one score are the documents of the collection with that score, in the
    order of the collection; and of two results with the same score, the
    one that comes first in the result comes first in the collection. *)
Theorem search_sorted_stable (data : list Document) (q : str) :
  StronglySorted scoreGe (search data q) /\
  (forall z,
      map post (filter (fun r => (score r =? z)%Z) (search data q))
      = filter (fun d => isHit (toLowerCase q) d
                         && (scoreOf (toLowerCase q) d =? z)%Z) data) /\
  (forall l1 r1 l2 r2 l3,
      search data q = l1 ++ r1 :: l2 ++ r2 :: l3 ->
      score r1 = score r2 ->
      exists d1 d2 d3, data = d1 ++ post r1 :: d2 ++ post r2 :: d3).
Proof.
  assert (Hst : forall z,
      map post (filter (fun r => (score r =? z)%Z) (search data q))
      = filter (fun d => isHit (toLowerCase q) d
                         && (scoreOf (toLowerCase q) d =? z)%Z) data).
  { intros z. unfold search. rewrite sort_filter. apply scan_posts_score. }
  split; [apply sort_sorted | split; [exact Hst |]].
  intros l1 r1 l2 r2 l3 Hsplit Heq.
  specialize (Hst (score r1)). rewrite Hsplit in Hst.
  rewrite filter_app in Hst. simpl in Hst. rewrite Z.eqb_refl in Hst.
  rewrite filter_app in Hst. simpl in Hst.
  rewrite <- Heq, Z.eqb_refl in Hst.
  rewrite map_app in Hst. simpl in Hst. rewrite map_app in Hst. simpl in Hst.
  symmetry in Hst. apply filter_split in Hst.
  destruct Hst as (d1 & rest & -> & _ & Hrest).
  apply filter_split in Hrest. destruct Hrest as (d2 & d3 & -> & _ & _).
  now exists d1, d2, d3.
Qed.


Lemma search_score_additive_witness :
  let r := mkResult goTutorial 1%Z (mkMatchedIn false true false false) in
  matchedIn r = flagsOf (toLowerCase (lit "rust")) (post r) /\
  score r = (10 * b2z (in_title (matchedIn r))
             + 5 * b2z (in_tags (matchedIn r))
             + 3 * b2z (in_categories (matchedIn r))
             + 1 * b2z (in_content (matchedIn r)))%Z /\
  (forall data' q' r',
      In r' (search data' q') ->
      in_title (matchedIn r) = true -> in_content (matchedIn r) = true ->
      in_title (matchedIn r') = false -> in_tags (matchedIn r') = false ->
      in_categories (matchedIn r') = false -> in_content (matchedIn r') = true ->
      (score r' < score r)%Z).
Proof.
  apply (search_score_additive [rustGuide; goTutorial] (lit "rust")).
  vm_compute. right. left. reflexivity.
Defined.

(** ** The excerpt *)

Section ExcerptFacts.



Lemma ciEq_length (a b : str) : ciEq a b -> length a = length b.
Proof.
  unfold ciEq. intros H. rewrite <- (toLowerCase_length a), H.
  apply toLowerCase_length.
Qed.



End ExcerptFacts.



(** ** The pattern built by [highlight] *)

Section PatternFacts.

Ltac each_char c := destruct c as [[] [] [] [] [] [] [] []].

Lemma isSpecial_isSyntaxChar (c : ascii) : isSpecial c = isSyntaxChar c.
Proof. each_char c; reflexivity. Qed.

(** A character outside the class of line 332 has no meaning of its own
    in a pattern. *)
Lemma plain_char (c : ascii) :
  isSpecial c = false ->
  Ascii.eqb c "\" = false /\ Ascii.eqb c "." = false /\
  Ascii.eqb c "|" = false /\ quantifierOf c = None /\ isSyntaxChar c = false.
Proof.
  each_char c; intros H; try discriminate H; repeat split; reflexivity.
Qed.

Lemma lower_upper (c : ascii) : lowerChar (upperChar c) = lowerChar c.
Proof. each_char c; reflexivity. Qed.

Lemma upper_lower (c : ascii) : upperChar (lowerChar c) = upperChar c.
Proof. each_char c; reflexivity. Qed.

(** Under the flag [i] two characters match exactly when [toLowerCase]
    makes them equal. *)
Lemma atomMatches_lower (a c : ascii) :
  atomMatches (AChar a) c = Ascii.eqb (lowerChar a) (lowerChar c).
Proof.
  simpl. destruct (Ascii.eqb_spec (upperChar a) (upperChar c)) as [E | E];
    destruct (Ascii.eqb_spec (lowerChar a) (lowerChar c)) as [F | F];
    try reflexivity; exfalso.
  - apply F. rewrite <- (lower_upper a), <- (lower_upper c). now rewrite E.
  - apply E. rewrite <- (upper_lower a), <- (upper_lower c). now rewrite F.
Qed.

Lemma parseDisjunction_escaped (k : str) (done : list alternative) (cur : alternative) :
  parseDisjunction (escapeRegExp k) done cur
  = Some (rev (rev (rev (map (fun c => (AChar c, QOne)) k) ++ cur) :: done)).
Proof.
  revert cur; induction k as [|c k IH]; intros cur; [reflexivity |].
  change (escapeRegExp (c :: k))
    with ((if isSpecial c then ["\"%char; c] else [c]) ++ escapeRegExp k).
  destruct (isSpecial c) eqn:E.
  - cbn [app parseDisjunction]. rewrite Ascii.eqb_refl.
    rewrite <- isSpecial_isSyntaxChar, E, IH. cbn [map rev].
    now rewrite <- app_assoc.
  - destruct (plain_char c E) as (H1 & H2 & H3 & H4 & H5).
    cbn [app parseDisjunction]. rewrite H1, H2, H3, H4, H5, IH. cbn [map rev].
    now rewrite <- app_assoc.
Qed.

Lemma unsnoc_app (s : str) (z : ascii) : unsnoc (s ++ [z]) = Some (s, z).
Proof.
  induction s as [|c s IH]; [reflexivity |].
  simpl. now rewrite IH.
Qed.

(** Whatever the keyword holds, the pattern built from it is read as the
    keyword itself, character by character. *)
Lemma RegExp_escaped (k : str) :
  RegExp (lit "(" ++ escapeRegExp k ++ lit ")") = Some (literal k).
Proof.
  change (lit "(" ++ escapeRegExp k ++ lit ")")
    with ("("%char :: (escapeRegExp k ++ [")"%char])).
  unfold RegExp. rewrite Ascii.eqb_refl, unsnoc_app, Ascii.eqb_refl.
  rewrite parseDisjunction_escaped. unfold literal. cbn [rev app].
  now rewrite app_nil_r, rev_involutive.
Qed.

Lemma matchTerms_literal (k s : str) :
  matchTerms (map (fun c => (AChar c, QOne)) k) s
  = if startsWith (toLowerCase s) (toLowerCase k) then Some (length k) else None.
Proof.
  revert s; induction k as [|a k IH]; intros s; [reflexivity |].
  destruct s as [|c s].
  - reflexivity.
  - cbn [map matchTerms]. rewrite atomMatches_lower, IH.
    cbn [toLowerCase map startsWith length].
    destruct (Ascii.eqb (lowerChar a) (lowerChar c)); [| reflexivity].
    cbn [andb]. fold (toLowerCase s). fold (toLowerCase k).
    now destruct (startsWith (toLowerCase s) (toLowerCase k)).
Qed.

Lemma matchDisjunction_literal (k s : str) :
  matchDisjunction (literal k) s
  = if startsWith (toLowerCase s) (toLowerCase k) then Some (length k) else None.
Proof.
  unfold literal. cbn [matchDisjunction]. rewrite matchTerms_literal.
  now destruct (startsWith (toLowerCase s) (toLowerCase k)).
Qed.

Lemma startsWith_ciPrefix (q s : str) :
  startsWith (toLowerCase s) (toLowerCase q) = true <-> ciPrefix q s.
Proof.
  rewrite startsWith_app. unfold ciPrefix, ciEq. split.
  - intros (suf & H). unfold toLowerCase in H at 1.
    apply map_eq_app in H. destruct H as (m & t & -> & Hm & _).
    now exists m, t.
  - intros (m & suf & -> & H). exists (toLowerCase suf).
    now rewrite toLowerCase_app, H.
Qed.

Lemma matchAll_skip (d : disjunction) (s : str) (pos k : nat) :
  k <= length s ->
  matchAll d s pos k = matchAll d (skipn k s) (pos + k) 0.
Proof.
  revert pos k; induction s as [|c s IH]; intros pos k Hk.
  - simpl in Hk. replace k with 0 by lia. now rewrite Nat.add_0_r.
  - destruct k as [|k].
    + now rewrite Nat.add_0_r.
    + cbn [matchAll skipn]. rewrite IH by (simpl in Hk; lia).
      f_equal. lia.
Qed.

Lemma expandTemplate_plain (a t m : str) :
  noDollar a ->
  expandTemplate (a ++ t) m = option_map (app a) (expandTemplate t m).
Proof.
  unfold noDollar. induction a as [|c a IH]; intros H.
  - simpl. now destruct (expandTemplate t m).
  - assert (Hc : Ascii.eqb c "$" = false).
    { apply Ascii.eqb_neq. intros ->. apply H. now left. }
    cbn [app expandTemplate]. rewrite Hc, IH by (intros Hin; apply H; now right).
    now destruct (expandTemplate t m).
Qed.

Lemma noDollar_app (a b : str) : noDollar a -> noDollar b -> noDollar (a ++ b).
Proof.
  unfold noDollar. intros Ha Hb H. apply in_app_or in H. tauto.
Qed.

(** The replacement of a match is the match inside the marker. *)
Lemma expandTemplate_mark (o : Options) (m : str) :
  noDollar (highlightClass o) ->
  expandTemplate (markTemplate o) m = Some (markOpen o ++ m ++ markClose).
Proof.
  intros H. unfold markTemplate. rewrite expandTemplate_plain.
  - change (lit "$1" ++ markClose) with ("$"%char :: "1"%char :: markClose).
    cbn [expandTemplate]. rewrite Ascii.eqb_refl. cbn [orb].
    replace (expandTemplate markClose m) with (Some markClose) by reflexivity.
    reflexivity.
  - unfold markOpen. repeat apply noDollar_app; try exact H;
      unfold noDollar; simpl; intuition discriminate.
Qed.

End PatternFacts.

(** ** Reading a text from left to right *)

Section MarkedFacts.

Variable o : Options.
Variable q : str.
Hypothesis q_nonempty : q <> [].

Lemma ciEq_nonempty (m : str) : ciEq m q -> 1 <= length m.
Proof.
  intros H. apply ciEq_length in H. destruct q; [congruence |].
  simpl in H. lia.
Qed.

Lemma Marked_from (pos : nat) (text : str) (hits : list (nat * str)) (out : str) :
  Marked o q pos text hits out -> Forall (fun h => pos <= fst h) hits.
Proof.
  induction 1 as [pos | pos m t hits out Hm _ IH | pos c t hits out _ _ IH].
  - constructor.
  - constructor; [simpl; lia |].
    eapply Forall_impl; [| exact IH]. simpl. intros h Hh. lia.
  - eapply Forall_impl; [| exact IH]. simpl. intros h Hh. lia.
Qed.





Lemma substitute_copy (template : str) (hits : list (nat * str))
      (c : ascii) (s : str) (pos : nat) (out : str) :
  Forall (fun h => S pos <= fst h) hits ->
  substitute template hits s (S pos) = Some out ->
  substitute template hits (c :: s) pos = Some (c :: out).
Proof.
  destruct hits as [|[i m] hits]; intros Hf H.
  - simpl in *. now injection H as ->.
  - apply Forall_inv in Hf. simpl in Hf.
    cbn [substitute] in *.
    replace (i - pos) with (S (i - S pos)) by lia.
    cbn [firstn skipn Nat.add].
    destruct (expandTemplate template m); [| discriminate].
    destruct (substitute template hits (skipn (i - S pos + length m) s)
                (i + length m)); [| discriminate].
    now injection H as <-.
Qed.

Hypothesis class_plain : noDollar (highlightClass o).

(** The matches found and the text produced are those of the reading
    from left to right. *)
Lemma replace_Marked (n : nat) :
  forall (s : str) (pos : nat),
    length s <= n ->
    exists out,
      substitute (markTemplate o) (matchAll (literal q) s pos 0) s pos = Some out /\
      Marked o q pos s (matchAll (literal q) s pos 0) out.
Proof.
  induction n as [|n IH]; intros s pos Hn.
  - destruct s; [| simpl in Hn; lia].
    cbn [matchAll]. rewrite matchDisjunction_literal.
    destruct q as [|a q']; [congruence |].
    exists []. split; [reflexivity | constructor].
  - destruct s as [|c s].
    { cbn [matchAll]. rewrite matchDisjunction_literal.
      destruct q as [|a q']; [congruence |].
      exists []. split; [reflexivity | constructor]. }
    cbn [matchAll]. rewrite matchDisjunction_literal.
    destruct (startsWith (toLowerCase (c :: s)) (toLowerCase q)) eqn:E.
    + apply startsWith_ciPrefix in E. destruct E as (m & t & Hs & Hm).
      pose proof (ciEq_length _ _ Hm) as Hl.
      pose proof (ciEq_nonempty m Hm) as Hl1.
      assert (Hlen : length (c :: s) = length m + length t)
        by (rewrite Hs; apply length_app).
      assert (Hfirst : firstn (length q) (c :: s) = m).
      { rewrite Hs, <- Hl, firstn_app, Nat.sub_diag, firstn_all. simpl.
        apply app_nil_r. }
      assert (Hrest : skipn (length m) (c :: s) = t).
      { rewrite Hs, skipn_app, Nat.sub_diag, skipn_all. reflexivity. }
      rewrite Hfirst, matchAll_skip by (simpl in Hlen; lia).
      replace (skipn (Nat.pred (length q)) s) with t
        by (rewrite <- Hrest, <- Hl; destruct (length m); [lia | reflexivity]).
      replace (S pos + Nat.pred (length q)) with (pos + length m) by lia.
      destruct (IH t (pos + length m)) as (out & Hsub & HM);
        [simpl in Hlen, Hn; lia |].
      exists (markOpen o ++ m ++ markClose ++ out). split.
      * cbn [substitute]. rewrite Nat.sub_diag, expandTemplate_mark by assumption.
        cbn [Nat.add firstn app]. rewrite Hrest, Hsub.
        now rewrite <- !app_assoc.
      * rewrite Hs. now constructor.
    + destruct (IH s (S pos)) as (out & Hsub & HM); [simpl in Hn; lia |].
      exists (c :: out). split.
      * apply substitute_copy; [| exact Hsub]. exact (Marked_from _ _ _ _ HM).
      * constructor; [| exact HM].
        intros H. apply startsWith_ciPrefix in H. congruence.
Qed.

End MarkedFacts.

(** ** The claim about [highlight] *)


Lemma highlight_replace (o : Options) (text q : str) :
  q <> [] ->
  highlight o text q
  = substitute (markTemplate o) (matchAll (literal q) text 0 0) text 0.
Proof.
  intros Hq. unfold highlight.
  destruct text as [|c text].
  - cbn [matchAll]. rewrite matchDisjunction_literal.
    destruct q; [congruence | reflexivity].
  - destruct q as [|a q]; [congruence |].
    now rewrite RegExp_escaped.
Qed.




(** ** Trimming *)

Section TrimFacts.

Lemma trimStart_length (s : str) : length (trimStart s) <= length s.
Proof.
  induction s as [|c s IH]; simpl; [lia |].
  destruct (isWhiteSpace c); simpl; lia.
Qed.

Lemma trim_length (s : str) : length (trim s) <= length s.
Proof.
  unfold trim, trimEnd. rewrite length_rev.
  eapply Nat.le_trans; [apply trimStart_length |].
  rewrite length_rev. apply trimStart_length.
Qed.

Lemma trimStart_white (w s : str) : allWhite w -> trimStart (w ++ s) = trimStart s.
Proof.
  induction 1 as [|c w Hc _ IH]; [reflexivity |].
  simpl. now rewrite Hc.
Qed.

Lemma trimStart_all_white (w : str) : allWhite w -> trimStart w = [].
Proof.
  intros H. rewrite <- (app_nil_r w). now rewrite trimStart_white.
Qed.

Lemma allWhite_rev (w : str) : allWhite w -> allWhite (rev w).
Proof. apply Forall_rev. Qed.

Lemma trimEnd_white (s w : str) : allWhite w -> trimEnd (s ++ w) = trimEnd s.
Proof.
  intros H. unfold trimEnd. rewrite rev_app_distr.
  now rewrite trimStart_white by now apply allWhite_rev.
Qed.

(** What [trimStart] leaves of [a ++ b]. *)
Lemma trimStart_app (a b : str) :
  trimStart (a ++ b) = trimStart a ++ b \/ (allWhite a /\ trimStart a = []).
Proof.
  induction a as [|c a IH]; simpl.
  - right. split; [constructor | reflexivity].
  - destruct (isWhiteSpace c) eqn:E.
    + destruct IH as [IH | [IH1 IH2]]; [now left |].
      right. split; [now constructor | exact IH2].
    + now left.
Qed.

(** White space around a text does not change what [trim] returns. *)
Lemma trim_padding (w1 s w2 : str) :
  allWhite w1 -> allWhite w2 -> trim (w1 ++ s ++ w2) = trim s.
Proof.
  intros H1 H2. unfold trim. rewrite trimStart_white by assumption.
  destruct (trimStart_app s w2) as [E | [Hs E]].
  - rewrite E. now apply trimEnd_white.
  - rewrite E, trimStart_white by assumption.
    now rewrite trimStart_all_white.
Qed.

End TrimFacts.

(** ** The session *)

Section SessionFacts.

Lemma options_handleSearch (s s' : Engine) (q : str) :
  handleSearch s q = Some s' -> options s' = options s.
Proof.
  unfold handleSearch.
  destruct (Z.of_nat (length (trim q)) <? minChars (options s))%Z.
  - now intros [= <-].
  - destruct (searchData s).
    + destruct (renderResults _ _ _); [now intros [= <-] | discriminate].
    + destruct (negb (isLoading s)); now intros [= <-].
Qed.

Lemma options_settled (s : Engine) (r : FetchOutcome) :
  options (loadSearchData_settled s r) = options s.
Proof.
  unfold loadSearchData_settled.
  destruct r as [|[] [data|]]; try reflexivity.
  cbn zeta.
  destruct (inputValue _) eqn:Ev; [reflexivity |].
  destruct (_ >=? _)%Z; [| reflexivity].
  destruct (handleSearch _ _) eqn:Eh; [| reflexivity].
  apply options_handleSearch in Eh. exact Eh.
Qed.

Lemma options_step (s : Engine) (e : Event) : options (step s e) = options s.
Proof.
  destruct e; simpl.
  - unfold toggleSearch, openSearch, closeSearch.
    destruct (isOpen s); [reflexivity |]. simpl.
    destruct (searchData s); [reflexivity |]. now destruct (negb (isLoading s)).
  - reflexivity.
  - reflexivity.
  - destruct (debouncePending s); [| reflexivity].
    destruct (handleSearch _ _) eqn:Eh; [| reflexivity].
    apply options_handleSearch in Eh. exact Eh.
  - now destruct (isOpen s).
  - now destruct (isOpen s).
  - destruct (isLoading s); [apply options_settled | reflexivity].
Qed.


Lemma loadingWithoutData_handleSearch (s s' : Engine) (q : str) :
  loadingWithoutData s -> handleSearch s q = Some s' -> loadingWithoutData s'.
Proof.
  unfold handleSearch, loadingWithoutData.
  destruct (Z.of_nat (length (trim q)) <? minChars (options s))%Z.
  - intros H [= <-]. exact H.
  - destruct (searchData s) eqn:Ed.
    + destruct (renderResults _ _ _); [| discriminate].
      intros H [= <-]. simpl. rewrite Ed. exact H.
    + destruct (negb (isLoading s)); intros H [= <-]; simpl; auto.
Qed.

Lemma loadingWithoutData_step (s : Engine) (e : Event) :
  loadingWithoutData s -> loadingWithoutData (step s e).
Proof.
  intros H. destruct e; simpl.
  - unfold toggleSearch, openSearch.
    destruct (isOpen s); [exact H |]. simpl.
    destruct (searchData s) eqn:Ed; [exact H |].
    destruct (negb (isLoading s)); [| exact H].
    intros _. exact Ed.
  - exact H.
  - exact H.
  - destruct (debouncePending s); [| exact H].
    destruct (handleSearch _ _) eqn:Eh; [| exact H].
    eapply loadingWithoutData_handleSearch; [| exact Eh]. exact H.
  - now destruct (isOpen s).
  - now destruct (isOpen s).
  - destruct (isLoading s) eqn:El; [| exact H].
    unfold loadingWithoutData, loadSearchData_settled.
    destruct r as [|[] [data|]]; try (simpl; discriminate).
    cbn zeta.
    destruct (inputValue _); [simpl; discriminate |].
    destruct (_ >=? _)%Z; [| simpl; discriminate].
    destruct (handleSearch _ _); simpl; discriminate.
Qed.

Lemma loadingWithoutData_reachable (s : Engine) :
  reachable s -> loadingWithoutData s.
Proof.
  intros (o & es & ->). unfold run.
  assert (H : loadingWithoutData (initial o)) by (intros H; discriminate H).
  revert H. generalize (initial o).
  induction es as [|e es IH]; intros s H; [exact H |].
  simpl. apply IH. now apply loadingWithoutData_step.
Qed.

End SessionFacts.

Section TrimSpec.

Lemma trimStart_spec (s : str) :
  exists w, allWhite w /\ s = w ++ trimStart s /\
            forall c t, trimStart s = c :: t -> isWhiteSpace c = false.
Proof.
  induction s as [|a s (w & Hw & Hs & Hc)].
  - exists []. repeat split; [constructor | discriminate].
  - simpl. destruct (isWhiteSpace a) eqn:E.
    + exists (a :: w). repeat split.
      * now constructor.
      * simpl. now rewrite <- Hs.
      * exact Hc.
    + exists []. repeat split; [constructor |].
      intros c t [= <- _]. exact E.
Qed.

Lemma trimEnd_spec (s : str) :
  exists w, allWhite w /\ s = trimEnd s ++ w /\
            forall t c, trimEnd s = t ++ [c] -> isWhiteSpace c = false.
Proof.
  destruct (trimStart_spec (rev s)) as (w & Hw & Hs & Hc).
  exists (rev w). unfold trimEnd. repeat split.
  - now apply allWhite_rev.
  - rewrite <- rev_app_distr, <- Hs. now rewrite rev_involutive.
  - intros t c H. apply (f_equal (@rev ascii)) in H.
    rewrite rev_involutive, rev_app_distr in H. simpl in H.
    exact (Hc c (rev t) H).
Qed.

Lemma trimEnd_head (c : ascii) (rest : str) :
  isWhiteSpace c = false -> exists rest', trimEnd (c :: rest) = c :: rest'.
Proof.
  intros Hc. unfold trimEnd. simpl rev.
  destruct (trimStart_app (rev rest) [c]) as [E | [Hw _]].
  - rewrite E, rev_app_distr. simpl. now eexists.
  - rewrite trimStart_white by assumption. simpl. rewrite Hc. simpl. now eexists.
Qed.

(** [trim] takes away the white space at both ends, and only that. *)
Lemma trim_spec (q : str) :
  exists w1 w2,
    allWhite w1 /\ allWhite w2 /\ q = w1 ++ trim q ++ w2 /\
    (forall c t, trim q = c :: t -> isWhiteSpace c = false) /\
    (forall t c, trim q = t ++ [c] -> isWhiteSpace c = false).
Proof.
  destruct (trimStart_spec q) as (w1 & Hw1 & Hq & Hc1).
  destruct (trimEnd_spec (trimStart q)) as (w2 & Hw2 & Hs & Hc2).
  exists w1, w2. unfold trim. repeat split; auto.
  - now rewrite <- Hs.
  - intros c t H. destruct (trimStart q) as [|a x] eqn:Ex.
    + discriminate H.
    + pose proof (Hc1 a x eq_refl) as Ha.
      destruct (trimEnd_head a x Ha) as (rest' & E).
      rewrite E in H. now injection H as <- _.
Qed.

End TrimSpec.

Section SessionClaims.

Lemma searchData_handleSearch (s s' : Engine) (q : str) (data : list Document) :
  searchData s = Some data -> handleSearch s q = Some s' -> searchData s' = Some data.
Proof.
  intros Hd. unfold handleSearch.
  destruct (_ <? _)%Z; [now intros [= <-] |].
  rewrite Hd. destruct (renderResults _ _ _); [now intros [= <-] | discriminate].
Qed.

Lemma handleSearch_short (s : Engine) (q : str) :
  (Z.of_nat (length (trim q)) < minChars (options s))%Z ->
  handleSearch s q = Some (set_panel PanelEmpty s).
Proof.
  intros H. unfold handleSearch. apply Z.ltb_lt in H. now rewrite H.
Qed.

(** Without input, a session whose input is empty shows no search and
    runs none. *)
Lemma quiet_step (s : Engine) (e : Event) :
  (0 < minChars (options s))%Z -> isInput e = false ->
  inputValue s = [] -> showsSearch (panel s) = false ->
  inputValue (step s e) = [] /\ showsSearch (panel (step s e)) = false /\
  scans (step s e) = scans s.
Proof.
  intros Hmin He Hv Hp.
  assert (Hclose : inputValue (closeSearch s) = [] /\
                   showsSearch (panel (closeSearch s)) = false /\
                   scans (closeSearch s) = scans s) by (repeat split).
  destruct e; simpl; try discriminate He.
  - unfold toggleSearch. destruct (isOpen s); [exact Hclose |].
    unfold openSearch. simpl.
    destruct (searchData s); [now repeat split |].
    destruct (negb (isLoading s)); now repeat split.
  - exact Hclose.
  - destruct (debouncePending s); [| now repeat split].
    simpl. rewrite Hv, handleSearch_short by (simpl; exact Hmin).
    now repeat split.
  - destruct (isOpen s); [exact Hclose | now repeat split].
  - destruct (isOpen s); [exact Hclose | now repeat split].
  - destruct (isLoading s); [| now repeat split].
    unfold loadSearchData_settled.
    destruct r as [|[] [data|]]; try now repeat split.
    simpl. rewrite Hv. now repeat split.
Qed.

Lemma quiet_run (es : list Event) (s : Engine) :
  (0 < minChars (options s))%Z -> forallb (fun e => negb (isInput e)) es = true ->
  inputValue s = [] -> showsSearch (panel s) = false ->
  inputValue (run s es) = [] /\ showsSearch (panel (run s es)) = false /\
  scans (run s es) = scans s.
Proof.
  revert s; induction es as [|e es IH]; intros s Hmin Hes Hv Hp.
  - now repeat split.
  - simpl in Hes. apply andb_true_iff in Hes. destruct Hes as [He Hes].
    apply negb_true_iff in He.
    destruct (quiet_step s e Hmin He Hv Hp) as (Hv' & Hp' & Hs').
    change (run s (e :: es)) with (run (step s e) es).
    destruct (IH (step s e)) as (H1 & H2 & H3); auto.
    + now rewrite options_step.
    + repeat split; auto. congruence.
Qed.

End SessionClaims.

(** ** The claims about the session *)

(** C6.  For a query shorter than [minChars], [handleSearch] empties the
    results container and does nothing else: no search runs over the
    collection, no fetch is made, nothing is shown.  So it is when the
    debounce delay elapses over such a text. *)
Theorem handleSearch_below_minChars (s : Engine) (q : str) :
  (Z.of_nat (length q) < minChars (options s))%Z ->
  exists s',
    handleSearch s q = Some s' /\
    s' = set_panel PanelEmpty s /\
    panel s' = PanelEmpty /\ scans s' = scans s /\ fetches s' = fetches s /\
    (debouncePending s = true -> inputValue s = q ->
     step s DebounceElapsed = set_debouncePending false s').
Proof.
  intros H. exists (set_panel PanelEmpty s).
  assert (Ht : (Z.of_nat (length (trim q)) < minChars (options s))%Z)
    by (pose proof (trim_length q); lia).
  repeat split.
  - now apply handleSearch_short.
  - intros Hp Hv. simpl. rewrite Hp, Hv.
    now rewrite handleSearch_short by exact Ht.
Qed.

Lemma handleSearch_below_minChars_witness :
  let s := set_panel (PanelNoResults (lit "No results found"))
             (set_searchData (Some [rustGuide; goTutorial]) (initial defaultOptions)) in
  let q := lit "r" in
  exists s',
    handleSearch s q = Some s' /\
    s' = set_panel PanelEmpty s /\
    panel s' = PanelEmpty /\ scans s' = scans s /\ fetches s' = fetches s /\
    (debouncePending s = true -> inputValue s = q ->
     step s DebounceElapsed = set_debouncePending false s').
Proof.
  apply (handleSearch_below_minChars
           (set_panel (PanelNoResults (lit "No results found"))
              (set_searchData (Some [rustGuide; goTutorial]) (initial defaultOptions)))
           (lit "r")).
  simpl. lia.
Defined.

(** C7.  When the fetch of a session fails -- rejected, answered with a
    status that is not a success, or with a body that cannot be read --
    the error message is shown, no collection is kept, the loading flag
    is down, and the next search of a long enough query, as well as the
    next opening, fetches again; a fetch that then succeeds leaves its
    collection. *)
Theorem load_failure_recovered (s : Engine) (r : FetchOutcome) (q : str) :
  reachable s -> isLoading s = true -> failed r ->
  (minChars (options s) <= Z.of_nat (length (trim q)))%Z ->
  let s1 := step s (FetchSettled r) in
  panel s1 = PanelError /\ searchData s1 = None /\ isLoading s1 = false /\
  fetches s1 = fetches s /\
  handleSearch s1 q = Some (loadSearchData s1) /\
  fetches (loadSearchData s1) = S (fetches s) /\
  isLoading (loadSearchData s1) = true /\
  fetches (openSearch s1) = S (fetches s) /\
  (forall data,
      searchData (step (loadSearchData s1) (FetchSettled (FetchResponse true (Some data))))
      = Some data).
Proof.
  intros Hreach Hload Hfail Hq.
  pose proof (loadingWithoutData_reachable s Hreach Hload) as Hnone.
  assert (Hs1 : step s (FetchSettled r) = loadFailed s).
  { simpl. rewrite Hload. destruct r as [|[] [data|]]; try reflexivity.
    destruct Hfail. }
  cbv zeta. rewrite Hs1.
  assert (Hh : handleSearch (loadFailed s) q = Some (loadSearchData (loadFailed s))).
  { unfold handleSearch.
    assert (E : (Z.of_nat (length (trim q)) <? minChars (options (loadFailed s)))%Z = false)
      by (apply Z.ltb_ge; exact Hq).
    rewrite E. simpl. now rewrite Hnone. }
  repeat split; auto.
  - unfold openSearch. simpl. now rewrite Hnone.
  - intros data. simpl.
    destruct (inputValue s) eqn:Ev; [reflexivity |].
    destruct (_ >=? _)%Z; [| reflexivity].
    match goal with |- context [handleSearch ?s0 ?v] =>
      destruct (handleSearch s0 v) eqn:Eh end; [| reflexivity].
    simpl. eapply searchData_handleSearch; [| exact Eh]. reflexivity.
Qed.

Lemma load_failure_recovered_witness :
  let s := run (initial defaultOptions) [ToggleClick] in
  let r := FetchResponse false None in
  let q := lit " rust " in
  let s1 := step s (FetchSettled r) in
  panel s1 = PanelError /\ searchData s1 = None /\ isLoading s1 = false /\
  fetches s1 = fetches s /\
  handleSearch s1 q = Some (loadSearchData s1) /\
  fetches (loadSearchData s1) = S (fetches s) /\
  isLoading (loadSearchData s1) = true /\
  fetches (openSearch s1) = S (fetches s) /\
  (forall data,
      searchData (step (loadSearchData s1) (FetchSettled (FetchResponse true (Some data))))
      = Some data).
Proof.
  apply (load_failure_recovered (run (initial defaultOptions) [ToggleClick])
           (FetchResponse false None) (lit " rust ")).
  - exists defaultOptions, [ToggleClick]. reflexivity.
  - reflexivity.
  - exact I.
  - vm_compute. discriminate.
Defined.

(** C8, as the program has it.  [closeSearch] leaves the debounce timer
    as it is, and neither [handleSearch] nor the rendering reads the open
    state.  What [closeSearch] does is to empty the input; the timer and
    the completion of the load read the input when they run.  So, with
    [minChars] at least 1 and as long as no input arrives, whatever
    happens after the closing -- the timer fires, the load completes, the
    widget is opened again -- runs no search and shows none: the timer
    finds the empty text and empties the results container. *)
Theorem close_without_cancel (s : Engine) (es : list Event) :
  (0 < minChars (options s))%Z ->
  forallb (fun e => negb (isInput e)) es = true ->
  debouncePending (closeSearch s) = debouncePending s /\
  (forall b s0 q,
      handleSearch (set_open b s0) q = option_map (set_open b) (handleSearch s0 q)) /\
  (debouncePending s = true ->
   step (closeSearch s) DebounceElapsed
   = set_debouncePending false (closeSearch s)) /\
  inputValue (run (closeSearch s) es) = [] /\
  showsSearch (panel (run (closeSearch s) es)) = false /\
  scans (run (closeSearch s) es) = scans s.
Proof.
  intros Hmin Hes. split; [reflexivity |]. split; [| split].
  - intros b s0 q. unfold handleSearch. simpl.
    destruct (_ <? _)%Z; [reflexivity |].
    destruct (searchData s0).
    + now destruct (renderResults _ _ _).
    + now destruct (negb (isLoading s0)).
  - intros Hp. simpl. rewrite Hp. simpl.
    now rewrite handleSearch_short by (simpl; exact Hmin).
  - apply (quiet_run es (closeSearch s)); auto.
Qed.

Lemma close_without_cancel_witness :
  let s := run (initial defaultOptions)
             [ToggleClick;
              FetchSettled (FetchResponse true (Some [rustGuide; goTutorial]));
              InputEvent (lit "rust")] in
  let es := [DebounceElapsed; ToggleClick] in
  debouncePending (closeSearch s) = debouncePending s /\
  (forall b s0 q,
      handleSearch (set_open b s0) q = option_map (set_open b) (handleSearch s0 q)) /\
  (debouncePending s = true ->
   step (closeSearch s) DebounceElapsed
   = set_debouncePending false (closeSearch s)) /\
  inputValue (run (closeSearch s) es) = [] /\
  showsSearch (panel (run (closeSearch s) es)) = false /\
  scans (run (closeSearch s) es) = scans s.
Proof.
  apply (close_without_cancel
           (run (initial defaultOptions)
              [ToggleClick;
               FetchSettled (FetchResponse true (Some [rustGuide; goTutorial]));
               InputEvent (lit "rust")])
           [DebounceElapsed; ToggleClick]).
  - simpl. lia.
  - reflexivity.
Defined.

(** C8, the counterexample.  A timer that is pending when the widget is
    closed is still pending afterwards; and a search that runs while the
    widget is closed -- here after the Escape key, which leaves the input
    where it is, and a further input -- puts its results in the results
    container of the closed widget.  So does a load that fails after the
    closing with its error message. *)
Lemma close_keeps_timer :
  debouncePending
    (run (initial defaultOptions)
       [ToggleClick; InputEvent (lit "rust"); CloseClick]) = true /\
  (let s := run (initial defaultOptions)
              [ToggleClick;
               FetchSettled (FetchResponse true (Some [rustGuide; goTutorial]));
               EscapeKey; InputEvent (lit "rust"); DebounceElapsed] in
   isOpen s = false /\ showsSearch (panel s) = true /\
   exists items, panel s = PanelResults items /\ length items = 2) /\
  (let s := run (initial defaultOptions)
              [ToggleClick; EscapeKey; FetchSettled FetchRejected] in
   isOpen s = false /\ panel s = PanelError).
Proof.
  split; [reflexivity |]. split.
  - cbv zeta. split; [reflexivity |]. split; [vm_compute; reflexivity |].
    eexists. split; [vm_compute; reflexivity | reflexivity].
  - split; reflexivity.
Qed.

(** C9.  [closeSearch] empties the input and the results container and
    lowers the open flag; the collection, the loading flag, the options,
    the timer and the counters stay as they are.  Opening the widget
    again when a collection is loaded makes no fetch. *)
Theorem closeSearch_frame (s : Engine) :
  closeSearch s
  = mkEngine (options s) (searchData s) (isLoading s) false false
             [] PanelEmpty (debouncePending s) (fetches s) (scans s) /\
  (forall data,
      searchData s = Some data ->
      openSearch (closeSearch s) = set_open true (closeSearch s) /\
      step (closeSearch s) ToggleClick = set_open true (closeSearch s) /\
      searchData (openSearch (closeSearch s)) = Some data /\
      isLoading (openSearch (closeSearch s)) = isLoading s /\
      fetches (openSearch (closeSearch s)) = fetches s).
Proof.
  split; [reflexivity |]. intros data Hd.
  assert (Ho : openSearch (closeSearch s) = set_open true (closeSearch s)).
  { unfold openSearch. simpl. now rewrite Hd. }
  split; [exact Ho |]. split.
  - simpl. unfold toggleSearch. simpl. exact Ho.
  - rewrite Ho. simpl. auto.
Qed.

(** C10.  [handleSearch] works on the trimmed query.  [trim] takes away
    the white space at both ends and nothing else.  A query whose trimmed
    text is shorter than [minChars] empties the results container,
    however long the query itself is; with a collection loaded, a longer
    one is searched for and shown by its trimmed text; and white space
    put around a query changes nothing of what [handleSearch] does. *)
Theorem handleSearch_trims (s : Engine) :
  (forall q, exists w1 w2,
      allWhite w1 /\ allWhite w2 /\ q = w1 ++ trim q ++ w2 /\
      (forall c t, trim q = c :: t -> isWhiteSpace c = false) /\
      (forall t c, trim q = t ++ [c] -> isWhiteSpace c = false)) /\
  (forall q,
      (Z.of_nat (length (trim q)) < minChars (options s))%Z ->
      handleSearch s q = Some (set_panel PanelEmpty s)) /\
  (forall q data,
      searchData s = Some data ->
      (minChars (options s) <= Z.of_nat (length (trim q)))%Z ->
      handleSearch s q
      = option_map (fun p => set_panel p (count_scan s))
          (renderResults (options s) (search data (trim q)) (trim q))) /\
  (forall w1 q w2,
      allWhite w1 -> allWhite w2 ->
      handleSearch s (w1 ++ q ++ w2) = handleSearch s q) /\
  handleSearch (initial defaultOptions) (lit " a ")
  = Some (set_panel PanelEmpty (initial defaultOptions)).
Proof.
  split; [exact trim_spec |]. split; [intros q; apply handleSearch_short |].
  split; [| split].
  - intros q data Hd Hq. unfold handleSearch.
    assert (E : (Z.of_nat (length (trim q)) <? minChars (options s))%Z = false)
      by (apply Z.ltb_ge; exact Hq).
    rewrite E, Hd. now destruct (renderResults _ _ _).
  - intros w1 q w2 H1 H2. unfold handleSearch.
    now rewrite trim_padding.
  - reflexivity.
Qed.

(** ** Further properties of the session and of the search *)

(** X1.  While a load is in flight no event makes a second fetch: a
    search that arrives then, an opening of the widget, and the
    completion of the load itself leave the count of fetches as it is. *)
Theorem no_fetch_while_loading (s : Engine) (e : Event) :
  isLoading s = true -> fetches (step s e) = fetches s.
Proof.
  intros Hl.
  assert (Hh : forall s0 s' q,
             isLoading s0 = true \/ searchData s0 <> None ->
             handleSearch s0 q = Some s' -> fetches s' = fetches s0).
  { intros s0 s' q H0. unfold handleSearch.
    destruct (_ <? _)%Z; [now intros [= <-] |].
    destruct (searchData s0) eqn:Ed.
    - destruct (renderResults _ _ _); [now intros [= <-] | discriminate].
    - destruct H0 as [H0 | H0]; [| congruence]. rewrite H0. now intros [= <-]. }
  destruct e; simpl.
  - unfold toggleSearch, openSearch. destruct (isOpen s); [reflexivity |].
    simpl. rewrite Hl. now destruct (searchData s).
  - reflexivity.
  - reflexivity.
  - destruct (debouncePending s); [| reflexivity].
    destruct (handleSearch _ _) eqn:Eh; [| reflexivity]. simpl.
    apply Hh in Eh; [exact Eh | now left].
  - now destruct (isOpen s).
  - now destruct (isOpen s).
  - rewrite Hl. unfold loadSearchData_settled.
    destruct r as [|[] [data|]]; try reflexivity.
    cbn zeta. destruct (inputValue _); [reflexivity |].
    destruct (_ >=? _)%Z; [| reflexivity].
    destruct (handleSearch _ _) eqn:Eh; [| reflexivity]. simpl.
    apply Hh in Eh; [exact Eh | right; discriminate].
Qed.

Lemma no_fetch_while_loading_witness :
  fetches (step (run (initial defaultOptions) [ToggleClick; InputEvent (lit "rust")])
             DebounceElapsed)
  = fetches (run (initial defaultOptions) [ToggleClick; InputEvent (lit "rust")]).
Proof.
  apply (no_fetch_while_loading
           (run (initial defaultOptions) [ToggleClick; InputEvent (lit "rust")])
           DebounceElapsed).
  reflexivity.
Defined.

(** X2.  When the load succeeds and the input holds a text whose trimmed
    form has at least [minChars] characters ([minChars] being at least
    1), the search for that text runs at once over the new collection and
    its rendering is what the results container shows. *)
Theorem load_replays_input (s : Engine) (data : list Document) (p : Panel) :
  isLoading s = true ->
  (0 < minChars (options s))%Z ->
  (minChars (options s) <= Z.of_nat (length (trim (inputValue s))))%Z ->
  renderResults (options s) (search data (trim (inputValue s))) (trim (inputValue s))
  = Some p ->
  let s' := step s (FetchSettled (FetchResponse true (Some data))) in
  searchData s' = Some data /\ panel s' = p /\ isLoading s' = false /\
  scans s' = S (scans s) /\ fetches s' = fetches s.
Proof.
  intros Hl Hmin Hq Hr. cbv zeta. simpl. rewrite Hl.
  pose proof (trim_length (inputValue s)) as Ht.
  destruct (inputValue s) as [|c v] eqn:Ev.
  { simpl in Hq. lia. }
  assert (E1 : (Z.of_nat (length (c :: v)) >=? minChars (options s))%Z = true).
  { rewrite Z.geb_leb. apply Z.leb_le. lia. }
  rewrite E1. unfold handleSearch. simpl options. simpl searchData.
  assert (E2 : (Z.of_nat (length (trim (c :: v))) <? minChars (options s))%Z = false)
    by (apply Z.ltb_ge; exact Hq).
  rewrite E2, Hr. now repeat split.
Qed.

Lemma load_replays_input_witness :
  let s := run (initial defaultOptions) [ToggleClick; InputEvent (lit "zig ")] in
  let s' := step s (FetchSettled (FetchResponse true (Some [rustGuide; goTutorial]))) in
  searchData s' = Some [rustGuide; goTutorial] /\
  panel s' = PanelNoResults (lit "No results found") /\ isLoading s' = false /\
  scans s' = S (scans s) /\ fetches s' = fetches s.
Proof.
  apply (load_replays_input
           (run (initial defaultOptions) [ToggleClick; InputEvent (lit "zig ")])
           [rustGuide; goTutorial] (PanelNoResults (lit "No results found"))).
  - reflexivity.
  - simpl. lia.
  - vm_compute. discriminate.
  - vm_compute. reflexivity.
Defined.

(** An example.  The query [rust] over the two sample documents, the
    tutorial first in the collection: both are returned, the guide first
    with score 11 (title and content), the tutorial second with score 1
    (content). *)
Theorem search_rust_scenario :
  map (fun r => (title (post r), score r))
      (search [goTutorial; rustGuide] (lit "rust"))
  = [(lit "Rust Guide", 11%Z); (lit "Go Tutorial", 1%Z)].
Proof. vm_compute. reflexivity. Qed.

(** An example.  Without the escaping the same characters are read as a
    pattern: [a.b*] then matches [axbb], and [C++] is refused by
    [RegExp]; with it, [highlight] leaves [axbb] alone and wraps the
    text [a.b*]. *)
Theorem escaping_matters :
  option_map (fun regex => matchAll regex (lit "axbb") 0 0) (RegExp (lit "(a.b*)"))
  = Some [(0, lit "axbb")] /\
  RegExp (lit "(C++)") = None /\
  highlight defaultOptions (lit "axbb") (lit "a.b*") = Some (lit "axbb") /\
  highlight defaultOptions (lit "x a.B* y") (lit "a.b*")
  = Some (lit "x " ++ markOpen defaultOptions ++ lit "a.B*" ++ markClose ++ lit " y").
Proof. repeat split; vm_compute; reflexivity. Qed.

(** X3.  Once a session holds a collection, no event fetches again and
    the collection stays as it is. *)
Theorem loaded_never_refetched (s : Engine) (e : Event) (data : list Document) :
  reachable s -> searchData s = Some data ->
  fetches (step s e) = fetches s /\ searchData (step s e) = Some data.
Proof.
  intros Hr Hd.
  assert (Hl : isLoading s = false).
  { destruct (isLoading s) eqn:El; [| reflexivity].
    pose proof (loadingWithoutData_reachable s Hr El). congruence. }
  assert (Hh : forall s0 s' q,
             searchData s0 = Some data -> handleSearch s0 q = Some s' ->
             fetches s' = fetches s0 /\ searchData s' = Some data).
  { intros s0 s' q H0. unfold handleSearch.
    destruct (_ <? _)%Z; [now intros [= <-] |]. rewrite H0.
    destruct (renderResults _ _ _); [now intros [= <-] | discriminate]. }
  destruct e; simpl.
  - unfold toggleSearch, openSearch. destruct (isOpen s); [now split |].
    simpl. rewrite Hd. now split.
  - now split.
  - now split.
  - destruct (debouncePending s); [| now split].
    destruct (handleSearch _ _) eqn:Eh; [| now split]. simpl.
    apply Hh in Eh; [exact Eh | exact Hd].
  - destruct (isOpen s); now split.
  - destruct (isOpen s); now split.
  - rewrite Hl. now split.
Qed.

Lemma loaded_never_refetched_witness :
  let s := run (initial defaultOptions)
             [ToggleClick;
              FetchSettled (FetchResponse true (Some [rustGuide; goTutorial]));
              CloseClick] in
  fetches (step s ToggleClick) = fetches s /\
  searchData (step s ToggleClick) = Some [rustGuide; goTutorial].
Proof.
  apply (loaded_never_refetched
           (run (initial defaultOptions)
              [ToggleClick;
               FetchSettled (FetchResponse true (Some [rustGuide; goTutorial]));
               CloseClick])
           ToggleClick [rustGuide; goTutorial]).
  - eexists _, _. reflexivity.
  - reflexivity.
Defined.

(** ** More about [search] *)

Section SearchMore.

Lemma includes_nil (s : str) : includes s [] = true.
Proof. unfold includes. destruct s; reflexivity. Qed.




Lemma relevance_range (t g c n : bool) :
  t || n || g || c = true -> (1 <= relevance t g c n <= 19)%Z.
Proof. unfold relevance. destruct t, g, c, n; simpl; intros H; try lia; discriminate. Qed.

End SearchMore.

(** X4.  Every document of the collection that matches gives exactly one
    result and the others give none: the documents of the results are,
    up to their order, the matching documents of the collection, each as
    often as the collection holds it.  A result scores from 1 to 19. *)
Theorem search_each_match_once (data : list Document) (q : str) :
  Permutation (map post (search data q)) (filter (isHit (toLowerCase q)) data) /\
  length (search data q) <= length data /\
  Forall (fun r => (1 <= score r <= 19)%Z) (search data q).
Proof.
  assert (P : Permutation (map post (search data q))
                (filter (isHit (toLowerCase q)) data)).
  { unfold search. rewrite <- scan_posts. apply Permutation_map.
    apply Permutation_sym, sort_perm. }
  split; [exact P |]. split.
  - rewrite <- (length_map post). rewrite (Permutation_length P).
    apply filter_length_le.
  - apply Forall_forall. intros r Hr. unfold search in Hr.
    apply sort_In, scan_In in Hr. destruct Hr as (_ & Hh & Hs & _).
    rewrite Hs. apply relevance_range. exact Hh.
Qed.



(** X6.  The empty keyword is found in every text: [search] then returns
    the whole collection, every document matched in its title and in its
    content. *)
Theorem search_empty_keyword (data : list Document) :
  Permutation (map post (search data [])) data /\
  Forall (fun r => in_title (matchedIn r) = true /\
                   in_content (matchedIn r) = true /\
                   (11 <= score r)%Z) (search data []).
Proof.
  assert (Hall : forall d, isHit [] d = true).
  { intros d. unfold isHit, titleMatch. now rewrite includes_nil. }
  split.
  - unfold search. simpl toLowerCase.
    eapply perm_trans;
      [apply Permutation_map, Permutation_sym, sort_perm |].
    rewrite scan_posts.
    replace (filter (isHit []) data) with data; [apply Permutation_refl |].
    clear - Hall. induction data as [|d data IH]; [reflexivity |].
    simpl. rewrite Hall. now f_equal.
  - apply Forall_forall. intros r Hr. unfold search in Hr.
    apply sort_In, scan_In in Hr. destruct Hr as (_ & _ & Hs & Hm).
    rewrite Hm, Hs. unfold scoreOf, flagsOf, titleMatch, contentMatch. simpl.
    rewrite !includes_nil. repeat split.
    unfold relevance.
    destruct (tagMatch [] (post r)), (categoryMatch [] (post r)); lia.
Qed.

(** ** More about [getExcerpt] and [highlight] *)

Section ExcerptMore.





End ExcerptMore.




Section HighlightMore.


(** Whatever the text and the keyword, [highlight] returns a text when
    the marker class holds no dollar sign. *)
Lemma highlight_returns (o : Options) (text q : str) :
  noDollar (highlightClass o) -> exists out, highlight o text q = Some out.
Proof.
  intros Hcls. destruct q as [|a q].
  - exists text. now destruct text.
  - assert (Hq : a :: q <> []) by discriminate.
    destruct (replace_Marked o (a :: q) Hq Hcls (length text) text 0 (le_n _))
      as (out & Hsub & _).
    exists out. now rewrite highlight_replace.
Qed.

End HighlightMore.



(** ** The excerpt and the marker together *)





(** ** More about the rendering and the session *)

Section RenderMore.

Lemma mapOption_Forall2 {A B : Type} (f : A -> option B) (l : list A) :
  (forall x, In x l -> exists y, f x = Some y) ->
  exists ys, mapOption f l = Some ys /\ Forall2 (fun x y => f x = Some y) l ys.
Proof.
  induction l as [|x l IH]; intros H.
  - exists []. split; [reflexivity | constructor].
  - destruct (H x (or_introl eq_refl)) as (y & Hy).
    destruct IH as (ys & Hys & HF); [intros z Hz; apply H; now right |].
    exists (y :: ys). simpl. rewrite Hy, Hys. split; [reflexivity |].
    now constructor.
Qed.

Lemma Forall2_length_eq {A B : Type} (R : A -> B -> Prop) (l : list A) (l' : list B) :
  Forall2 R l l' -> length l = length l'.
Proof. induction 1; simpl; congruence. Qed.

Lemma renderItem_returns (o : Options) (kw : str) (r : Result) :
  noDollar (highlightClass o) ->
  exists it, renderItem o kw r = Some it /\
             item_href it = url (post r) /\
             length (item_tags it) = Nat.min 3 (length (tags (post r))).
Proof.
  intros Hcls. unfold renderItem.
  destruct (highlight_returns o (title (post r)) kw Hcls) as (t & ->).
  destruct (highlight_returns o
              (getExcerpt (content (post r)) kw defaultMaxLength) kw Hcls)
    as (e & ->).
  destruct (mapOption_Forall2 (fun tag => highlight o tag kw)
              (firstn 3 (tags (post r)))) as (ts & -> & HF).
  { intros x _. apply highlight_returns. exact Hcls. }
  eexists. split; [reflexivity |]. split; [reflexivity |]. simpl.
  rewrite <- (Forall2_length_eq _ _ _ HF). apply length_firstn.
Qed.

Lemma renderResults_items (o : Options) (kw : str) (results : list Result) :
  noDollar (highlightClass o) ->
  exists items,
    mapOption (renderItem o kw) results = Some items /\
    map item_href items = map (fun r => url (post r)) results /\
    Forall2 (fun r it => length (item_tags it) = Nat.min 3 (length (tags (post r))))
            results items.
Proof.
  intros Hcls. induction results as [|r results (items & Hi & Hh & HF)].
  - exists []. repeat split. constructor.
  - destruct (renderItem_returns o kw r Hcls) as (it & Hit & Hhref & Htags).
    exists (it :: items). simpl. rewrite Hit, Hi, Hhref, Hh.
    repeat split. now constructor.
Qed.


End RenderMore.

(** X10.  With a marker class without a dollar sign, rendering a list of
    results that is not empty never fails, whatever the keyword: it
    gives one item for each result, in the order of the results, each
    with the link of its document and with at most three of its tags. *)
Theorem renderResults_shape (o : Options) (results : list Result) (kw : str) :
  noDollar (highlightClass o) -> results <> [] ->
  exists items,
    renderResults o results kw = Some (PanelResults items) /\
    map item_href items = map (fun r => url (post r)) results /\
    Forall2 (fun r it => length (item_tags it) = Nat.min 3 (length (tags (post r))))
            results items.
Proof.
  intros Hcls Hne.
  destruct (renderResults_items o kw results Hcls) as (items & Hi & Hh & HF).
  exists items. split; [| now split].
  unfold renderResults. destruct results; [congruence |]. now rewrite Hi.
Qed.

Lemma renderResults_shape_witness :
  let results := search [rustGuide; goTutorial] (lit "rust") in
  exists items,
    renderResults defaultOptions results (lit "rust") = Some (PanelResults items) /\
    map item_href items = map (fun r => url (post r)) results /\
    Forall2 (fun r it => length (item_tags it) = Nat.min 3 (length (tags (post r))))
            results items.
Proof.
  apply (renderResults_shape defaultOptions
           (search [rustGuide; goTutorial] (lit "rust")) (lit "rust")).
  - unfold noDollar. simpl. intuition discriminate.
  - vm_compute. discriminate.
Defined.



Section SessionMore.


Lemma debouncePending_handleSearch (s s' : Engine) (q : str) :
  handleSearch s q = Some s' -> debouncePending s' = debouncePending s.
Proof.
  unfold handleSearch. destruct (_ <? _)%Z; [now intros [= <-] |].
  destruct (searchData s).
  - destruct (renderResults _ _ _); [now intros [= <-] | discriminate].
  - destruct (negb (isLoading s)); now intros [= <-].
Qed.

Lemma run_app (s : Engine) (es es' : list Event) :
  run s (es ++ es') = run (run s es) es'.
Proof. apply fold_left_app. Qed.

Lemma renderResults_panel (o : Options) (results : list Result) (kw : str) (p : Panel) :
  renderResults o results kw = Some p -> showsSearch p = true.
Proof.
  unfold renderResults. destruct results.
  - now intros [= <-].
  - destruct (mapOption _ _); [now intros [= <-] | discriminate].
Qed.

Lemma sessionInvariant_handleSearch (s s' : Engine) (q : str) :
  sessionInvariant s -> handleSearch s q = Some s' -> sessionInvariant s'.
Proof.
  intros (H1 & H2 & H3). unfold handleSearch.
  destruct (_ <? _)%Z.
  - intros [= <-]. repeat split; simpl; auto; discriminate.
  - destruct (searchData s) as [data|] eqn:Ed.
    + destruct (renderResults _ _ _) as [p|] eqn:Er; [| discriminate].
      intros [= <-]. apply renderResults_panel in Er.
      repeat split; simpl; auto.
      * intros _. rewrite Ed. discriminate.
      * intros text Hp. rewrite Hp in Er. discriminate.
    + destruct (negb (isLoading s)); intros [= <-].
      * repeat split; simpl; auto. discriminate.
      * repeat split; auto. intros Hp. exfalso. now apply (H1 Hp).
Qed.

Lemma handleSearch_loaded_panel (s s' : Engine) (q : str) (data : list Document) :
  searchData s = Some data -> handleSearch s q = Some s' ->
  forall text, panel s' <> PanelLoading text.
Proof.
  intros Hd. unfold handleSearch. rewrite Hd.
  destruct (_ <? _)%Z; [intros [= <-]; discriminate |].
  destruct (renderResults _ _ _) as [p|] eqn:Er; [| discriminate].
  intros [= <-] text Hp. apply renderResults_panel in Er.
  simpl in Hp. rewrite Hp in Er. discriminate.
Qed.

Lemma sessionInvariant_step (s : Engine) (e : Event) :
  sessionInvariant s -> sessionInvariant (step s e).
Proof.
  intros Hinv.
  assert (Hopen : forall b, sessionInvariant (set_open b s)).
  { intros b. destruct Hinv as (H1 & H2 & _). repeat split; simpl; auto. }
  assert (Htimer : forall b, sessionInvariant (set_debouncePending b s)).
  { intros b. destruct Hinv as (H1 & H2 & H3). repeat split; simpl; auto. }
  assert (Hclose : sessionInvariant (closeSearch s)).
  { repeat split; simpl; auto; discriminate. }
  assert (Hfail : sessionInvariant (loadFailed s)).
  { destruct Hinv as (_ & _ & H3). repeat split; simpl; auto; discriminate. }
  destruct e; simpl.
  - unfold toggleSearch. destruct (isOpen s) eqn:Eo; [exact Hclose |].
    unfold openSearch. simpl.
    destruct (searchData s) eqn:Ed; [apply Hopen |].
    destruct (negb (isLoading s)); [| apply Hopen].
    repeat split; simpl; auto; discriminate.
  - exact Hclose.
  - destruct Hinv as (H1 & H2 & H3). repeat split; simpl; auto.
  - destruct (debouncePending s); [| exact Hinv].
    destruct (handleSearch _ _) eqn:Eh.
    + simpl. eapply sessionInvariant_handleSearch; [| exact Eh]. apply Htimer.
    + apply Htimer.
  - destruct (isOpen s); [exact Hclose | exact Hinv].
  - destruct (isOpen s); [exact Hclose | exact Hinv].
  - destruct (isLoading s); [| exact Hinv].
    unfold loadSearchData_settled.
    destruct r as [|[] [data|]]; try exact Hfail.
    cbn zeta.
    assert (Hs1 : sessionInvariant (set_panel PanelEmpty (set_searchData (Some data) s))).
    { destruct Hinv as (_ & _ & H3). repeat split; simpl; auto; discriminate. }
    assert (Hdone : forall s0, sessionInvariant s0 ->
                      (forall text, panel s0 <> PanelLoading text) ->
                      sessionInvariant (set_isLoading false s0)).
    { intros s0 (K1 & K2 & K3) K. repeat split; simpl; auto.
      intros text Hp. exfalso. exact (K text Hp). }
    destruct (inputValue _) eqn:Ev; [apply Hdone; [exact Hs1 | discriminate] |].
    destruct (_ >=? _)%Z; [| apply Hdone; [exact Hs1 | discriminate]].
    destruct (handleSearch _ _) as [s2|] eqn:Eh.
    + apply Hdone.
      * eapply sessionInvariant_handleSearch; [exact Hs1 | exact Eh].
      * eapply handleSearch_loaded_panel; [| exact Eh]. reflexivity.
    + destruct Hinv as (_ & _ & H3). repeat split; simpl; auto; discriminate.
Qed.

End SessionMore.

(** X12.  Inputs that follow one another before the timer fires count as
    the last of them: after them and one firing of the timer the session
    is as after the last input alone and the firing.  A timer that has
    fired does not fire again. *)
Theorem debounce_coalesces (s : Engine) (vs : list str) (v : str) :
  run s (map InputEvent (vs ++ [v]) ++ [DebounceElapsed])
  = run s [InputEvent v; DebounceElapsed] /\
  step (step s DebounceElapsed) DebounceElapsed = step s DebounceElapsed.
Proof.
  split.
  - rewrite map_app, <- app_assoc. simpl app.
    change (run s [InputEvent v; DebounceElapsed])
      with (run (step s (InputEvent v)) [DebounceElapsed]).
    rewrite run_app.
    change (run (run s (map InputEvent vs)) [InputEvent v; DebounceElapsed])
      with (run (step (run s (map InputEvent vs)) (InputEvent v)) [DebounceElapsed]).
    f_equal. revert s; induction vs as [|a vs IH]; intros s; [reflexivity |].
    simpl map. change (run s (InputEvent a :: map InputEvent vs))
      with (run (step s (InputEvent a)) (map InputEvent vs)).
    rewrite IH. reflexivity.
  - assert (Hoff : debouncePending (step s DebounceElapsed) = false
                   \/ step s DebounceElapsed = s /\ debouncePending s = false).
    { simpl. destruct (debouncePending s) eqn:Ep; [left | now right].
      destruct (handleSearch _ _) eqn:Eh; simpl; [| reflexivity].
      apply debouncePending_handleSearch in Eh. exact Eh. }
    destruct Hoff as [Hoff | [Hs Hoff]].
    + generalize dependent (step s DebounceElapsed). intros s1 Hoff.
      simpl. now rewrite Hoff.
    + rewrite Hs. exact Hs.
Qed.

(** X13.  In every state that a session reaches, search results (or the
    message for no results) are shown only when a collection is loaded,
    the loading message only while a load is under way, and the open
    flag goes with the class [is-open] of the form. *)
Theorem reachable_sessionInvariant (s : Engine) :
  reachable s -> sessionInvariant s.
Proof.
  intros (o & es & ->). unfold run.
  assert (H : sessionInvariant (initial o))
    by (repeat split; simpl; auto; discriminate).
  revert H. generalize (initial o).
  induction es as [|e es IH]; intros s H; [exact H |].
  simpl. apply IH. now apply sessionInvariant_step.
Qed.

Lemma reachable_sessionInvariant_witness :
  sessionInvariant
    (run (initial defaultOptions)
       [ToggleClick; InputEvent (lit "rust"); CloseClick; ToggleClick;
        FetchSettled (FetchResponse true (Some [rustGuide; goTutorial]))]).
Proof.
  apply (reachable_sessionInvariant
           (run (initial defaultOptions)
              [ToggleClick; InputEvent (lit "rust"); CloseClick; ToggleClick;
               FetchSettled (FetchResponse true (Some [rustGuide; goTutorial]))])).
  eexists _, _. reflexivity.
Defined.


(** ** The processing of the index *)

Section ProcessFacts.

Variable textContent : JSON -> str.
Variable innerText : JSON -> str.

Lemma mapOption_None {A B : Type} (f : A -> option B) (l : list A) :
  mapOption f l = None <-> exists x, In x l /\ f x = None.
Proof.
  induction l as [|x l IH]; simpl.
  - split; [discriminate | intros (x & [] & _)].
  - destruct (f x) eqn:Ex.
    + destruct (mapOption f l) eqn:El.
      * split; [discriminate |]. intros (y & [<- | Hy] & Hf); [congruence |].
        assert (C : Some l0 = None) by (apply (proj2 IH); now exists y).
        discriminate C.
      * split; [| reflexivity]. intros _.
        destruct (proj1 IH eq_refl) as (y & Hy & Hf). exists y. auto.
    + split; [| reflexivity]. intros _. exists x. auto.
Qed.

Lemma mapOption_Some_Forall2 {A B : Type} (f : A -> option B) (l : list A) (ys : list B) :
  mapOption f l = Some ys -> Forall2 (fun x y => f x = Some y) l ys.
Proof.
  revert ys; induction l as [|x l IH]; intros ys; simpl.
  - intros [= <-]. constructor.
  - destruct (f x) eqn:Ex; [| discriminate].
    destruct (mapOption f l); [| discriminate].
    intros [= <-]. constructor; auto.
Qed.

Lemma tagName_None (t : JSON) : tagName t = None <-> t = JNull.
Proof. destruct t; simpl; split; congruence. Qed.

Lemma categoryName_None (t : JSON) : categoryName t = None <-> t = JNull.
Proof. destruct t; simpl; split; congruence. Qed.

Lemma extractTags_None (v : option JSON) : extractTags v = None <-> hasNull v.
Proof.
  unfold extractTags, hasNull. split.
  - destruct (truthy v); simpl; [| discriminate].
    destruct v as [[| | | |items|]|]; try discriminate.
    intros H. apply mapOption_None in H. destruct H as (t & Ht & Hn).
    apply tagName_None in Hn. subst t. now exists items.
  - intros (items & -> & Hin). simpl. apply mapOption_None.
    exists JNull. split; [exact Hin | reflexivity].
Qed.

Lemma extractCategories_None (v : option JSON) :
  extractCategories v = None <-> hasNull v.
Proof.
  unfold extractCategories, hasNull. split.
  - destruct (truthy v); simpl; [| discriminate].
    destruct v as [[| | | |items|]|]; try discriminate.
    intros H. apply mapOption_None in H. destruct H as (t & Ht & Hn).
    apply categoryName_None in Hn. subst t. now exists items.
  - intros (items & -> & Hin). simpl. apply mapOption_None.
    exists JNull. split; [exact Hin | reflexivity].
Qed.

Lemma processPost_None (p : JSON) :
  processPost textContent innerText p = None <-> badPost p.
Proof.
  unfold badPost. destruct p as [| b | n | s | items | props].
  - split; [now left | reflexivity].
  - split; [discriminate | intros [H | (props & H & _)]; discriminate].
  - split; [discriminate | intros [H | (props & H & _)]; discriminate].
  - split; [discriminate | intros [H | (props & H & _)]; discriminate].
  - split; [discriminate | intros [H | (props & H & _)]; discriminate].
  - unfold processPost. cbn [getProp].
    destruct (truthy (lookup (lit "url") props)).
    + destruct (extractTags (lookup (lit "tags") props)) eqn:Et.
      * destruct (extractCategories (lookup (lit "categories") props)) eqn:Ec.
        -- split; [discriminate |].
           intros [H | (props' & [= <-] & [H | H])]; [discriminate | |].
           ++ apply extractTags_None in H. congruence.
           ++ apply extractCategories_None in H. congruence.
        -- split; [| reflexivity]. intros _. right. exists props.
           split; [reflexivity |]. right. now apply extractCategories_None.
      * split; [| reflexivity]. intros _. right. exists props.
        split; [reflexivity |]. left. now apply extractTags_None.
    + destruct (extractTags (lookup (lit "tags") props)) eqn:Et.
      * destruct (extractCategories (lookup (lit "categories") props)) eqn:Ec.
        -- split; [discriminate |].
           intros [H | (props' & [= <-] & [H | H])]; [discriminate | |].
           ++ apply extractTags_None in H. congruence.
           ++ apply extractCategories_None in H. congruence.
        -- split; [| reflexivity]. intros _. right. exists props.
           split; [reflexivity |]. right. now apply extractCategories_None.
      * split; [| reflexivity]. intros _. right. exists props.
        split; [reflexivity |]. left. now apply extractTags_None.
Qed.

Lemma strEqb_refl (a : str) : strEqb a a = true.
Proof. induction a as [|c a IH]; simpl; [reflexivity |]. now rewrite Ascii.eqb_refl. Qed.

Lemma tagName_plain (t : JSON) :
  plainLabel t -> tagName t = Some (JString (labelText t)).
Proof.
  intros [(s & ->) | (props & -> & H)]; [reflexivity |].
  unfold tagName, labelText. cbn [getProp].
  destruct H as [E | (s & E)]; rewrite E; [reflexivity | now destruct s].
Qed.

Lemma categoryName_plain (t : JSON) :
  plainLabel t -> categoryName t = Some (JString (labelText t)).
Proof.
  intros [(s & ->) | (props & -> & H)]; [reflexivity |].
  unfold categoryName, labelText. cbn [getProp].
  destruct H as [E | (s & E)]; rewrite E; [reflexivity | now destruct s].
Qed.

Lemma mapOption_plain (f : JSON -> option JSON) (items : list JSON) :
  (forall t, plainLabel t -> f t = Some (JString (labelText t))) ->
  Forall plainLabel items ->
  mapOption f items = Some (map JString (map labelText items)).
Proof.
  intros Hf. induction 1 as [|t items Ht _ IH]; [reflexivity |].
  simpl. now rewrite (Hf t Ht), IH.
Qed.

Lemma extractTags_plain (v : option JSON) :
  plainLabels v -> extractTags v = Some (map JString (labelTexts v)).
Proof.
  intros [-> | (items & -> & H)]; [reflexivity |].
  unfold extractTags. simpl. apply mapOption_plain; [apply tagName_plain | exact H].
Qed.

Lemma extractCategories_plain (v : option JSON) :
  plainLabels v -> extractCategories v = Some (map JString (labelTexts v)).
Proof.
  intros [-> | (items & -> & H)]; [reflexivity |].
  unfold extractCategories. simpl.
  apply mapOption_plain; [apply categoryName_plain | exact H].
Qed.

Lemma orElseValue_text (v : option JSON) :
  textOrAbsent v -> orElseValue v (JString []) = JString (textOf v).
Proof. intros [-> | (s & ->)]; [reflexivity |]. now destruct s. Qed.

End ProcessFacts.

(** X15.  The two shapes of the index.  An object is processed as the
    array that its property [posts] holds; an object without it (or with
    a [posts] that is null, false, zero or empty text), as well as a
    mere text, number or boolean, gives the empty collection and no
    error.  The collection has one entry for each post, in the order of
    the posts. *)
Theorem processSearchData_shapes (textContent innerText : JSON -> str) :
  (forall props items,
      lookup (lit "posts") props = Some (JArray items) ->
      processSearchData textContent innerText (JObject props)
      = processSearchData textContent innerText (JArray items)) /\
  (forall props,
      truthy (lookup (lit "posts") props) = false ->
      processSearchData textContent innerText (JObject props) = Some []) /\
  (forall b n s,
      processSearchData textContent innerText (JBool b) = Some [] /\
      processSearchData textContent innerText (JNumber n) = Some [] /\
      processSearchData textContent innerText (JString s) = Some []) /\
  (forall items entries,
      processSearchData textContent innerText (JArray items) = Some entries ->
      Forall2 (fun p e => processPost textContent innerText p = Some e)
              items entries /\
      length entries = length items).
Proof.
  split; [| split; [| split]].
  - intros props items H. unfold processSearchData. cbn [getProp]. now rewrite H.
  - intros props H. unfold processSearchData. cbn [getProp].
    unfold orElseValue. destruct (lookup (lit "posts") props); [| reflexivity].
    now rewrite H.
  - intros b n s. repeat split.
  - intros items entries H. unfold processSearchData in H.
    apply mapOption_Some_Forall2 in H. split; [exact H |].
    symmetry. exact (Forall2_length_eq _ _ _ H).
Qed.

(** X16.  When the processing of the index throws, so that the load
    fails: on [null]; on an object whose [posts] is something other than
    an array (and not null, false, zero or empty text); and on an array
    of posts of which one is [null] or holds [null] among its tags or
    among its categories.  In no other case. *)
Theorem processSearchData_throws (textContent innerText : JSON -> str) :
  processSearchData textContent innerText JNull = None /\
  (forall items,
      processSearchData textContent innerText (JArray items) = None
      <-> exists p, In p items /\ badPost p) /\
  (forall props,
      processSearchData textContent innerText (JObject props) = None
      <-> (exists v, lookup (lit "posts") props = Some v /\
                     truthy (Some v) = true /\ forall items, v <> JArray items)
          \/ (exists items, lookup (lit "posts") props = Some (JArray items) /\
                            exists p, In p items /\ badPost p)).
Proof.
  assert (Harr : forall items,
             processSearchData textContent innerText (JArray items) = None
             <-> exists p, In p items /\ badPost p).
  { intros items. unfold processSearchData. rewrite mapOption_None.
    split; intros (p & Hp & H); exists p; split; auto;
      now apply (processPost_None textContent innerText). }
  split; [reflexivity |]. split; [exact Harr |].
  intros props. unfold processSearchData. cbn [getProp]. unfold orElseValue.
  destruct (lookup (lit "posts") props) as [v|] eqn:E.
  - destruct (truthy (Some v)) eqn:Et.
    + destruct v as [| b | n | s | items | props'];
        try (split;
             [intros _; left; eexists;
              split; [reflexivity | split; [exact Et | discriminate]]
             | reflexivity]).
      rewrite mapOption_None. split.
      * intros (p & Hp & H). right. exists items. split; [reflexivity |].
        exists p. split; [exact Hp |]. now apply (processPost_None textContent innerText).
      * intros [(v & [= <-] & _ & Hv) | (items' & [= <-] & p & Hp & H)].
        -- exfalso. now apply (Hv items).
        -- exists p. split; [exact Hp |].
           now apply (processPost_None textContent innerText).
    + split; [discriminate |].
      intros [(v' & [= <-] & Hv & _) | (items & [= ->] & _)];
        [congruence | discriminate Et].
  - split; [discriminate |].
    intros [(v & Hv & _) | (items & Hv & _)]; discriminate.
Qed.

Lemma processPost_plain (textContent innerText : JSON -> str) (p : JSON) :
  plainPost p ->
  processPost textContent innerText p
  = Some (entryOf (documentOf textContent innerText p)).
Proof.
  intros (props & -> & Ht & Hu & Hp & Hc & Hg & Hk).
  unfold processPost, entryOf, documentOf. cbn [getProp].
  rewrite (extractTags_plain _ Hg), (extractCategories_plain _ Hk).
  rewrite (orElseValue_text _ Ht), (orElseValue_text _ Hc).
  destruct Hu as [Eu | (u & Eu)]; rewrite Eu.
  - cbn [truthy textOf]. now rewrite (orElseValue_text _ Hp).
  - destruct u as [|c u]; cbn [truthy textOf].
    + now rewrite (orElseValue_text _ Hp).
    + reflexivity.
Qed.

(** X17.  An index of plain posts -- objects whose title, url, path and
    content are texts or are not there and whose tags and categories are
    not there or are arrays of texts and of objects with a [name] -- is
    processed without error into a collection made of texts only, one
    document for each post: the title or the empty text, the url or else
    the path or else the empty text, the stripped content, and the text
    of each tag and category, the [name] of an object or the empty
    text. *)
Theorem processSearchData_plain (textContent innerText : JSON -> str) (items : list JSON) :
  Forall plainPost items ->
  processSearchData textContent innerText (JArray items)
  = Some (map (fun p => entryOf (documentOf textContent innerText p)) items).
Proof.
  intros H. unfold processSearchData.
  induction H as [|p items Hp _ IH]; [reflexivity |].
  cbn [mapOption map]. now rewrite (processPost_plain _ _ p Hp), IH.
Qed.

Lemma processSearchData_plain_witness :
  let text := fun v : JSON => match v with JString s => s | _ => [] end in
  let items :=
    [JObject [(lit "title", JString (lit "Rust Guide"));
              (lit "path", JString (lit "rust/"));
              (lit "tags", JArray [JString (lit "systems");
                                   JObject [(lit "name", JString (lit "rust"))]])]] in
  processSearchData text text (JArray items)
  = Some (map (fun p => entryOf (documentOf text text p)) items).
Proof.
  apply (processSearchData_plain
           (fun v : JSON => match v with JString s => s | _ => [] end)
           (fun v : JSON => match v with JString s => s | _ => [] end)).
  repeat constructor. eexists. split; [reflexivity |].
  repeat split; try (left; reflexivity); try (right; eexists; reflexivity).
  right. eexists. split; [reflexivity |].
  apply Forall_cons; [| apply Forall_cons; [| apply Forall_nil]].
  - left. eexists. reflexivity.
  - right. eexists. split; [reflexivity |]. right. eexists. reflexivity.
Defined.

(** ** The identifier of a page *)

Section PageIdFacts.

Lemma unsnoc_Some (s body : str) (z : ascii) :
  unsnoc s = Some (body, z) -> s = body ++ [z].
Proof.
  revert body; induction s as [|c s IH]; intros body; simpl; [discriminate |].
  destruct (unsnoc s) as [[b y]|] eqn:E.
  - intros [= <- <-]. simpl. f_equal. now apply IH.
  - intros [= <- <-]. destruct s as [|d s]; [reflexivity |].
    simpl in E. destruct (unsnoc s) as [[? ?]|]; discriminate.
Qed.

Lemma dropFinalSlash_slash (p : str) : dropFinalSlash (p ++ ["/"%char]) = p.
Proof. unfold dropFinalSlash. now rewrite unsnoc_app. Qed.

Lemma dropFinalSlash_none (p : str) : noFinalSlash p -> dropFinalSlash p = p.
Proof.
  intros H. unfold dropFinalSlash.
  destruct (unsnoc p) as [[body z]|] eqn:E; [| reflexivity].
  destruct (Ascii.eqb_spec z "/") as [-> | _]; [| reflexivity].
  apply unsnoc_Some in E. exfalso. exact (H body E).
Qed.

Lemma slashesToUnderscores_clean (s : str) : ~ In "/"%char (slashesToUnderscores s).
Proof.
  unfold slashesToUnderscores. intros H. apply in_map_iff in H.
  destruct H as (c & Hc & _).
  destruct (Ascii.eqb c "/") eqn:E; [discriminate |].
  apply Ascii.eqb_neq in E. congruence.
Qed.

Lemma slashesToUnderscores_idem (s : str) :
  slashesToUnderscores (slashesToUnderscores s) = slashesToUnderscores s.
Proof.
  unfold slashesToUnderscores. rewrite map_map. apply map_ext. intros c.
  destruct (Ascii.eqb c "/") eqn:E; [reflexivity |]. now rewrite E.
Qed.

Lemma noFinalSlash_clean (s : str) : ~ In "/"%char s -> noFinalSlash s.
Proof. intros H body ->. apply H, in_or_app. right. now left. Qed.

End PageIdFacts.

(** X18.  The identifier of a page is never empty and holds no slash.  A
    slash added at the end of a path that has none there does not change
    the identifier.  Identifiers are not proper to one path: a path and
    the text that has underscores in the place of its slashes get the
    same one. *)
Theorem getPageId_properties (p : str) :
  getPageId p <> [] /\
  ~ In "/"%char (getPageId p) /\
  (noFinalSlash p ->
   getPageId (p ++ ["/"%char]) = getPageId p /\
   getPageId (slashesToUnderscores p) = getPageId p).
Proof.
  split; [| split].
  - unfold getPageId. destruct (slashesToUnderscores _); discriminate.
  - unfold getPageId.
    pose proof (slashesToUnderscores_clean (dropFinalSlash p)) as H.
    destruct (slashesToUnderscores (dropFinalSlash p)); [| exact H].
    simpl. intuition discriminate.
  - intros H. unfold getPageId. rewrite dropFinalSlash_slash.
    rewrite (dropFinalSlash_none p H).
    rewrite (dropFinalSlash_none (slashesToUnderscores p))
      by apply noFinalSlash_clean, slashesToUnderscores_clean.
    now rewrite slashesToUnderscores_idem.
Qed.

(** ** The passwords kept for the session *)

Section StorageFacts.

Variable JSON_stringify : JSON -> str.
Variable JSON_parse : str -> option JSON.
Variable hasRoom : list (str * str) -> str -> str -> bool.

Lemma strEqb_eq (a b : str) : strEqb a b = true <-> a = b.
Proof.
  revert b; induction a as [|x a IH]; intros [|y b]; simpl;
    try (split; [discriminate | discriminate]); [tauto |].
  rewrite andb_true_iff, Ascii.eqb_eq, IH. split.
  - now intros [-> ->].
  - now intros [= -> ->].
Qed.

Lemma strEqb_neq (a b : str) : a <> b -> strEqb a b = false.
Proof.
  intros H. destruct (strEqb a b) eqn:E; [| reflexivity].
  apply strEqb_eq in E. contradiction.
Qed.

Lemma dropItem_idem (k : str) (l : list (str * str)) :
  dropItem k (dropItem k l) = dropItem k l.
Proof.
  unfold dropItem. induction l as [|[k' v] l IH]; [reflexivity |].
  simpl. destruct (strEqb k k') eqn:E; simpl; [exact IH |].
  rewrite E. simpl. now rewrite IH.
Qed.

Lemma findItem_dropItem (k k' : str) (l : list (str * str)) :
  findItem k' (dropItem k l) = if strEqb k k' then None else findItem k' l.
Proof.
  unfold dropItem. induction l as [|[k0 v] l IH]; simpl.
  - now destruct (strEqb k k').
  - destruct (strEqb k k0) eqn:E0; simpl.
    + rewrite IH. destruct (strEqb k k') eqn:E; [reflexivity |].
      apply strEqb_eq in E0. subst k0.
      destruct (strEqb k' k) eqn:E'; [| reflexivity].
      apply strEqb_eq in E'. subst k'. now rewrite strEqb_refl in E.
    + rewrite IH. destruct (strEqb k' k0) eqn:E1; [| reflexivity].
      apply strEqb_eq in E1. subst k0. now rewrite E0.
Qed.

Lemma storageKey_not_test (pageId : str) :
  strEqb storageTestKey (storagePrefix ++ pageId) = false.
Proof. reflexivity. Qed.

Lemma storageKey_inj (a b : str) :
  a <> b -> strEqb (storagePrefix ++ a) (storagePrefix ++ b) = false.
Proof. intros H. apply strEqb_neq. intros E. apply app_inv_head in E. contradiction. Qed.

Hypothesis testFits : forall l, hasRoom l storageTestKey storageTestKey = true.

(** With room for the test item, the storage is available when it is
    accessible, and the test leaves it without the test item. *)
Lemma isStorageAvailable_accessible (st : Storage) :
  accessible st = true ->
  isStorageAvailable hasRoom st
  = (true, mkStorage true (dropItem storageTestKey (stored st))).
Proof.
  intros Ha. unfold isStorageAvailable, setItem, removeItem.
  rewrite Ha, testFits. cbn [andb accessible stored].
  do 2 f_equal. unfold dropItem at 1. cbn [filter fst].
  rewrite strEqb_refl. cbn [negb]. apply dropItem_idem.
Qed.

Lemma isStorageAvailable_inaccessible (st : Storage) :
  accessible st = false -> isStorageAvailable hasRoom st = (false, st).
Proof. intros Ha. unfold isStorageAvailable, setItem. now rewrite Ha. Qed.

Lemma getStoredPassword_accessible (st : Storage) (pageId : str) :
  accessible st = true ->
  fst (getStoredPassword JSON_parse hasRoom st pageId)
  = match findItem (storagePrefix ++ pageId) (stored st) with
    | Some (c :: data) =>
        match JSON_parse (c :: data) with
        | Some v => v
        | None => JNull
        end
    | _ => JNull
    end.
Proof.
  intros Ha. unfold getStoredPassword.
  rewrite (isStorageAvailable_accessible st Ha). cbn [negb]. unfold getItem.
  cbn [accessible stored]. rewrite findItem_dropItem, storageKey_not_test.
  destruct (findItem (storagePrefix ++ pageId) (stored st)) as [[|c data]|];
    try reflexivity.
  now destruct (JSON_parse (c :: data)).
Qed.

Lemma getStoredPassword_storage (st : Storage) (pageId : str) :
  accessible st = true ->
  snd (getStoredPassword JSON_parse hasRoom st pageId)
  = mkStorage true (dropItem storageTestKey (stored st)).
Proof.
  intros Ha. unfold getStoredPassword.
  rewrite (isStorageAvailable_accessible st Ha). cbn [negb]. unfold getItem.
  cbn [accessible stored].
  destruct (findItem _ _) as [[|c data]|]; try reflexivity.
  now destruct (JSON_parse (c :: data)).
Qed.

Lemma storePassword_accessible (st : Storage) (pageId password : str) (now : Z) :
  accessible st = true ->
  hasRoom (dropItem storageTestKey (stored st)) (storagePrefix ++ pageId)
          (JSON_stringify (passwordEntry password now)) = true ->
  storePassword JSON_stringify hasRoom st pageId password now
  = mkStorage true
      ((storagePrefix ++ pageId, JSON_stringify (passwordEntry password now))
         :: dropItem (storagePrefix ++ pageId)
              (dropItem storageTestKey (stored st))).
Proof.
  intros Ha Hroom. unfold storePassword.
  rewrite (isStorageAvailable_accessible st Ha). cbn [negb]. unfold setItem.
  cbn [accessible stored]. fold (passwordEntry password now).
  now rewrite Hroom.
Qed.

Lemma removeStoredPassword_accessible (st : Storage) (pageId : str) :
  accessible st = true ->
  removeStoredPassword hasRoom st pageId
  = mkStorage true (dropItem (storagePrefix ++ pageId)
                      (dropItem storageTestKey (stored st))).
Proof.
  intros Ha. unfold removeStoredPassword.
  now rewrite (isStorageAvailable_accessible st Ha).
Qed.

End StorageFacts.

(** X19.  A password stored for a page is read back for that page, with
    the time at which it was stored, when the storage can be used and
    has room for it; what is kept for the other pages is read as before;
    and once removed, nothing is read for the page. *)
Theorem stored_password_read_back
        (JSON_stringify : JSON -> str) (JSON_parse : str -> option JSON)
        (hasRoom : list (str * str) -> str -> str -> bool)
        (st : Storage) (pageId password : str) (now : Z) :
  (forall l, hasRoom l storageTestKey storageTestKey = true) ->
  accessible st = true ->
  hasRoom (dropItem storageTestKey (stored st)) (storagePrefix ++ pageId)
          (JSON_stringify (passwordEntry password now)) = true ->
  JSON_stringify (passwordEntry password now) <> [] ->
  JSON_parse (JSON_stringify (passwordEntry password now))
  = Some (passwordEntry password now) ->
  let st' := storePassword JSON_stringify hasRoom st pageId password now in
  fst (getStoredPassword JSON_parse hasRoom st' pageId) = passwordEntry password now /\
  (forall other,
      other <> pageId ->
      fst (getStoredPassword JSON_parse hasRoom st' other)
      = fst (getStoredPassword JSON_parse hasRoom st other)) /\
  fst (getStoredPassword JSON_parse hasRoom
         (removeStoredPassword hasRoom st' pageId) pageId) = JNull.
Proof.
  intros Hfit Ha Hroom Hne Hparse. cbv zeta.
  rewrite (storePassword_accessible JSON_stringify hasRoom Hfit st pageId password now Ha Hroom).
  split; [| split].
  - rewrite (getStoredPassword_accessible JSON_parse hasRoom Hfit) by reflexivity.
    cbn [stored findItem]. rewrite strEqb_refl.
    destruct (JSON_stringify (passwordEntry password now)) as [|c d] eqn:E;
      [congruence |]. now rewrite Hparse.
  - intros other Hother.
    rewrite !(getStoredPassword_accessible JSON_parse hasRoom Hfit)
      by (reflexivity || exact Ha).
    cbn [stored findItem]. rewrite (storageKey_inj other pageId Hother).
    rewrite !findItem_dropItem, storageKey_not_test.
    now rewrite (storageKey_inj pageId other) by congruence.
  - rewrite (removeStoredPassword_accessible hasRoom Hfit) by reflexivity.
    rewrite (getStoredPassword_accessible JSON_parse hasRoom Hfit) by reflexivity.
    cbn [stored]. now rewrite findItem_dropItem, strEqb_refl.
Qed.

Lemma stored_password_read_back_witness :
  let stringify := fun _ : JSON => lit "{}" in
  let parse := fun _ : str => Some (passwordEntry (lit "secret") 1000) in
  let hasRoom := fun (_ : list (str * str)) (_ _ : str) => true in
  let st := mkStorage true [(lit "theme", lit "dark")] in
  let st' := storePassword stringify hasRoom st (lit "_post") (lit "secret") 1000 in
  fst (getStoredPassword parse hasRoom st' (lit "_post"))
  = passwordEntry (lit "secret") 1000 /\
  (forall other,
      other <> lit "_post" ->
      fst (getStoredPassword parse hasRoom st' other)
      = fst (getStoredPassword parse hasRoom st other)) /\
  fst (getStoredPassword parse hasRoom
         (removeStoredPassword hasRoom st' (lit "_post")) (lit "_post")) = JNull.
Proof.
  apply (stored_password_read_back
           (fun _ : JSON => lit "{}")
           (fun _ : str => Some (passwordEntry (lit "secret") 1000))
           (fun (_ : list (str * str)) (_ _ : str) => true)
           (mkStorage true [(lit "theme", lit "dark")])
           (lit "_post") (lit "secret") 1000).
  - reflexivity.
  - reflexivity.
  - reflexivity.
  - discriminate.
  - reflexivity.
Defined.

(** X20.  The test of the storage.  When it answers no, the storage is as
    before, and then storing and removing a password change nothing and
    reading one gives [null].  When it answers yes, the storage has lost
    whatever item stood under the key of the test and keeps every other
    item. *)
Theorem isStorageAvailable_effect
        (hasRoom : list (str * str) -> str -> str -> bool) (st : Storage) :
  (fst (isStorageAvailable hasRoom st) = false ->
   snd (isStorageAvailable hasRoom st) = st /\
   forall stringify parse pageId password now,
     storePassword stringify hasRoom st pageId password now = st /\
     getStoredPassword parse hasRoom st pageId = (JNull, st) /\
     removeStoredPassword hasRoom st pageId = st) /\
  (fst (isStorageAvailable hasRoom st) = true ->
   accessible st = true /\
   findItem storageTestKey (stored (snd (isStorageAvailable hasRoom st))) = None /\
   forall k, k <> storageTestKey ->
             findItem k (stored (snd (isStorageAvailable hasRoom st)))
             = findItem k (stored st)).
Proof.
  assert (Hcases :
            isStorageAvailable hasRoom st = (false, st) \/
            (accessible st = true /\
             isStorageAvailable hasRoom st
             = (true, mkStorage true (dropItem storageTestKey (stored st))))).
  { unfold isStorageAvailable, setItem, removeItem.
    destruct (accessible st) eqn:Ha; cbn [andb]; [| now left].
    destruct (hasRoom (stored st) storageTestKey storageTestKey); [| now left].
    right. split; [reflexivity |]. cbn [accessible stored].
    do 2 f_equal. unfold dropItem at 1. cbn [filter fst].
    rewrite strEqb_refl. cbn [negb]. apply dropItem_idem. }
  destruct Hcases as [E | [Ha E]].
  - split; [| rewrite E; discriminate]. intros _.
    split; [now rewrite E |]. intros stringify parse pageId password now.
    unfold storePassword, getStoredPassword, removeStoredPassword.
    rewrite E. repeat split.
  - split; [rewrite E; discriminate |]. intros _. rewrite E. cbn [snd stored].
    split; [exact Ha |]. split.
    + now rewrite findItem_dropItem, strEqb_refl.
    + intros k Hk. rewrite findItem_dropItem.
      now rewrite (strEqb_neq storageTestKey k) by congruence.
Qed.

(** X21.  The password of a page that was decrypted is offered again on
    that page for 24 hours.  A check made less than [sessionDuration]
    after the storing hands the password to the input, if the page has
    one, and keeps the entry; a check made [sessionDuration] or more
    after it hands nothing and removes the entry. *)
Theorem stored_password_expiry
        (JSON_stringify : JSON -> str) (JSON_parse : str -> option JSON)
        (hasRoom : list (str * str) -> str -> str -> bool)
        (st : Storage) (pathname password : str) (t0 now : Z) (inputPresent : bool) :
  (forall l, hasRoom l storageTestKey storageTestKey = true) ->
  accessible st = true ->
  password <> [] ->
  hasRoom (dropItem storageTestKey (stored st)) (storagePrefix ++ getPageId pathname)
          (JSON_stringify (passwordEntry password t0)) = true ->
  JSON_stringify (passwordEntry password t0) <> [] ->
  JSON_parse (JSON_stringify (passwordEntry password t0))
  = Some (passwordEntry password t0) ->
  let st' := onDecryptSuccess JSON_stringify hasRoom st pathname (Some password) t0 in
  exists out,
    checkStoredPasswords JSON_parse hasRoom st' pathname now inputPresent = Some out /\
    ((now - t0 < sessionDuration)%Z ->
     filled out = (if inputPresent then Some (JString password) else None) /\
     fst (getStoredPassword JSON_parse hasRoom (storageAfter out) (getPageId pathname))
     = passwordEntry password t0) /\
    ((sessionDuration <= now - t0)%Z ->
     filled out = None /\
     fst (getStoredPassword JSON_parse hasRoom (storageAfter out) (getPageId pathname))
     = JNull).
Proof.
  intros Hfit Ha Hpw Hroom Hne Hparse. cbv zeta.
  assert (Hid : getPageId pathname <> []).
  { unfold getPageId. destruct (slashesToUnderscores _); discriminate. }
  unfold onDecryptSuccess, checkStoredPasswords.
  destruct (getPageId pathname) as [|c id] eqn:Eid; [congruence |].
  destruct password as [|p0 pw]; [congruence |].
  set (pageId := c :: id) in *. set (password := p0 :: pw) in *.
  rewrite (storePassword_accessible JSON_stringify hasRoom Hfit st pageId password t0 Ha Hroom).
  set (S1 := mkStorage true _).
  assert (Hget : getStoredPassword JSON_parse hasRoom S1 pageId
                 = (passwordEntry password t0,
                    mkStorage true (dropItem storageTestKey (stored S1)))).
  { rewrite (surjective_pairing (getStoredPassword JSON_parse hasRoom S1 pageId)).
    rewrite (getStoredPassword_accessible JSON_parse hasRoom Hfit) by reflexivity.
    rewrite (getStoredPassword_storage JSON_parse hasRoom Hfit) by reflexivity.
    f_equal. unfold S1. cbn [stored findItem]. rewrite strEqb_refl.
    destruct (JSON_stringify (passwordEntry password t0)) as [|d ds] eqn:E;
      [congruence |]. now rewrite Hparse. }
  rewrite Hget.
  change (getProp (Some (passwordEntry password t0)) (lit "password"))
    with (Some (Some (JString password))).
  change (getProp (Some (passwordEntry password t0)) (lit "timestamp"))
    with (Some (Some (JNumber t0))).
  cbn [truthy andb passwordEntry stillValid]. unfold password at 1. cbn iota.
  destruct (Z.ltb_spec (now - t0) sessionDuration) as [Hlt | Hge].
  - eexists. split; [reflexivity |]. cbn [filled storageAfter]. split.
    + intros _. split; [reflexivity |].
      rewrite (getStoredPassword_accessible JSON_parse hasRoom Hfit) by reflexivity.
      cbn [stored]. rewrite findItem_dropItem, storageKey_not_test.
      unfold S1. cbn [stored findItem]. rewrite strEqb_refl.
      destruct (JSON_stringify (passwordEntry password t0)) as [|d ds] eqn:E;
        [congruence |]. now rewrite Hparse.
    + intros H. lia.
  - eexists. split; [reflexivity |]. cbn [filled storageAfter]. split.
    + intros H. lia.
    + intros _. split; [reflexivity |].
      rewrite (removeStoredPassword_accessible hasRoom Hfit) by reflexivity.
      rewrite (getStoredPassword_accessible JSON_parse hasRoom Hfit) by reflexivity.
      cbn [stored]. now rewrite findItem_dropItem, strEqb_refl.
Qed.

Lemma stored_password_expiry_witness :
  let stringify := fun _ : JSON => lit "{}" in
  let parse := fun _ : str => Some (passwordEntry (lit "secret") 1000) in
  let hasRoom := fun (_ : list (str * str)) (_ _ : str) => true in
  let st := mkStorage true [] in
  let st' := onDecryptSuccess stringify hasRoom st (lit "/post/") (Some (lit "secret")) 1000 in
  exists out,
    checkStoredPasswords parse hasRoom st' (lit "/post/") 86401000 true = Some out /\
    ((86401000 - 1000 < sessionDuration)%Z ->
     filled out = Some (JString (lit "secret")) /\
     fst (getStoredPassword parse hasRoom (storageAfter out) (getPageId (lit "/post/")))
     = passwordEntry (lit "secret") 1000) /\
    ((sessionDuration <= 86401000 - 1000)%Z ->
     filled out = None /\
     fst (getStoredPassword parse hasRoom (storageAfter out) (getPageId (lit "/post/")))
     = JNull).
Proof.
  apply (stored_password_expiry
           (fun _ : JSON => lit "{}")
           (fun _ : str => Some (passwordEntry (lit "secret") 1000))
           (fun (_ : list (str * str)) (_ _ : str) => true)
           (mkStorage true []) (lit "/post/") (lit "secret") 1000 86401000 true).
  - reflexivity.
  - reflexivity.
  - discriminate.
  - reflexivity.
  - discriminate.
  - reflexivity.
Defined.
